(** * A shallow embedding of the go-git wrapper: refs, the ref cache and
      the porcelain status parser.

    The Go package shells out to the [git] command line tool and parses
    its textual output.  Strings are Go byte strings ([string] here, one
    [ascii] per byte); the ref cache [RefMap] and the config store are
    finite maps keyed by strings; every operation that touches the
    repository threads an explicit state which also records each
    external command that was started. *)

From Stdlib Require Import String Ascii List Bool Arith Lia.
From stdpp Require Import base option list strings gmap fin_maps.

Import ListNotations.
Local Open Scope string_scope.
Local Open Scope list_scope.

(** ** Go's [strings] package, as far as the sources use it *)

(** [strings.HasPrefix(s, prefix)]: [s] is at least as long as [prefix]
    and starts with its bytes. *)
Fixpoint HasPrefix (s prefix : string) {struct prefix} : bool :=
  match prefix with
  | EmptyString => true
  | String c prefix' =>
      match s with
      | EmptyString => false
      | String d s' => Ascii.eqb d c && HasPrefix s' prefix'
      end
  end.

(** [strings.Index(s, sep)] for a one byte separator together with the two
    slices [s[:m]] and [s[m+1:]] that [genSplit] takes around it. *)
Fixpoint cut (sep : ascii) (s : string) : option (string * string) :=
  match s with
  | EmptyString => None
  | String c s' =>
      if Ascii.eqb c sep then Some (EmptyString, s')
      else match cut sep s' with
           | Some (a, b) => Some (String c a, b)
           | None => None
           end
  end.

(** [strings.SplitN(s, sep, n)] for a one byte separator and [n >= 0]: at
    most [n] pieces, the last one being the unsplit remainder. *)
Fixpoint SplitN (s : string) (sep : ascii) (n : nat) : list string :=
  match n with
  | 0 => []
  | S m =>
      match m with
      | 0 => [s]
      | S _ =>
          match cut sep s with
          | Some (a, b) => a :: SplitN b sep m
          | None => [s]
          end
      end
  end.

(** ** Refs *)

(** [type Ref struct { SHA, Path string; r *Repo }].  The back pointer [r]
    is the repository every operation below receives in its state. *)
Record Ref : Type := mkRef { SHA : string; Path : string }.

Definition Ref_IsLocal (r : Ref) : bool := HasPrefix (Path r) "refs/heads/".
Definition Ref_IsRemote (r : Ref) : bool := HasPrefix (Path r) "refs/remotes/".
Definition Ref_IsTag (r : Ref) : bool := HasPrefix (Path r) "refs/tags/".
Definition Ref_IsHead (r : Ref) : bool := String.eqb (Path r) "HEAD".
Definition Ref_IsRaw (r : Ref) : bool := String.eqb (SHA r) (Path r).

(** [k := strings.SplitN(r.Path, "/", 3); return k[len(k)-1]]. *)
Definition Ref_Name (r : Ref) : string :=
  List.last (SplitN (Path r) "/" 3) EmptyString.

(** [k := strings.SplitN(r.Path, "/", 4); return k[2], nil] for a remote
    ref; the index is in range because the path starts "refs/remotes/". *)
Definition Ref_Remote (r : Ref) : string * option string :=
  if negb (Ref_IsRemote r)
  then (EmptyString, Some (Path r +:+ " is not a remote ref!"))
  else (nth 2 (SplitN (Path r) "/" 4) EmptyString, None).

(** ** Repositories, external commands and the threaded state *)

(** [type RefMap map[string]*Ref] and [type ConfigMap map[string]string].
    A [nil] map is [None]; stored pointers are never nil, so a lookup
    that yields [nil] is a missing key. *)
Abbreviation RefMap := (gmap string Ref).
Abbreviation ConfigMap := (gmap string string).

Record Repo : Type := mkRepo {
  GitDir : string;
  WorkDir : string;
  refs : option RefMap;
  cfg : option ConfigMap
}.

(** An [exec.Cmd] as the sources build it: working directory and the
    arguments that follow the [git] executable. *)
Record Cmd : Type := mkCmd { Dir : string; Args : list string }.

(** What [cmd.Run()] leaves behind: its error ([None] is [nil]) and the two
    captured streams. *)
Record CmdResult : Type := mkCmdResult {
  run_err : option string;
  stdout : string;
  stderr : string
}.

(** Everything that leaves the process is recorded, in order. *)
Inductive Event : Type :=
  | Exec (c : Cmd)
  | ConfigSet (k v : string)
  | ConfigKill (section : string).

Record State (W : Type) : Type := mkState {
  repo : Repo;
  world : W;
  config : ConfigMap;
  trace : list Event
}.
Arguments mkState {W} _ _ _ _.
Arguments repo {W} _.
Arguments world {W} _.
Arguments config {W} _.
Arguments trace {W} _.

(** A call either returns a value in a new state or panics. *)
Inductive Outcome (W A : Type) : Type :=
  | Returns (a : A) (s : State W)
  | Panics (msg : string).
Arguments Returns {W A} _ _.
Arguments Panics {W A} _.

Definition M (W A : Type) : Type := State W -> Outcome W A.

Definition ret {W A} (a : A) : M W A := fun s => Returns a s.

Definition bind {W A B} (m : M W A) (k : A -> M W B) : M W B :=
  fun s => match m s with
           | Returns a s' => k a s'
           | Panics msg => Panics msg
           end.

Definition panic {W A} (msg : string) : M W A := fun _ => Panics msg.

Notation "'let*' x ':=' m 'in' k" := (bind m (fun x => k))
  (at level 10, x name, m at level 100, k at level 200).

(** Go's [error]: [None] is [nil]. *)
Abbreviation error := (option string).

Definition nl : string := String (ascii_of_nat 10) EmptyString.

(** [func Git(cmd string, args ...string)]: the command line is [cmd]
    followed by [args]; no directory yet. *)
Definition Git (cmd : string) (args : list string) : Cmd :=
  mkCmd EmptyString (cmd :: args).

(** [func (r *Repo) Git]: same, run in the work tree when there is one and
    in the metadata directory otherwise. *)
Definition Repo_Git (r : Repo) (cmd : string) (args : list string) : Cmd :=
  let path := if String.eqb (WorkDir r) EmptyString then GitDir r else WorkDir r in
  mkCmd path (Args (Git cmd args)).



Definition get_repo {W} : M W Repo := fun s => Returns (repo s) s.

Definition set_refs {W} (m : option RefMap) : M W unit :=
  fun s =>
    Returns tt
      (mkState (mkRepo (GitDir (repo s)) (WorkDir (repo s)) m (cfg (repo s)))
               (world s) (config s) (trace s)).

(** ** [bufio.Scanner] with the default line splitter, [strings.TrimSpace] *)

(** [dropCR]: one trailing carriage return goes. *)
Fixpoint dropCR (s : string) : string :=
  match s with
  | EmptyString => EmptyString
  | String c EmptyString => if Ascii.eqb c (ascii_of_nat 13) then EmptyString else s
  | String c s' => String c (dropCR s')
  end.

(** [bufio.ScanLines] run to the end of the buffer: every newline ends a
    token, a last unterminated token is delivered when it is not empty.
    (Ref lines stay far below the scanner's token size limit, which is
    not modelled.) *)
Fixpoint ScanLines_from (cur : string) (data : string) : list string :=
  match data with
  | EmptyString =>
      match cur with
      | EmptyString => []
      | _ => [dropCR cur]
      end
  | String c data' =>
      if Ascii.eqb c (ascii_of_nat 10)
      then dropCR cur :: ScanLines_from EmptyString data'
      else ScanLines_from (cur +:+ String c EmptyString) data'
  end.

Definition ScanLines (data : string) : list string :=
  ScanLines_from EmptyString data.

(** [unicode.IsSpace] on the UTF-8 encoding: [white s] is the number of
    leading bytes of [s] that encode one white space rune, 0 if none. *)
Definition white (s : string) : nat :=
  match s with
  | EmptyString => 0
  | String a t =>
      let a := nat_of_ascii a in
      if ((a =? 32) || ((9 <=? a) && (a <=? 13)))%nat then 1
      else match t with
           | EmptyString => 0
           | String b u =>
               let b := nat_of_ascii b in
               if ((a =? 194) && ((b =? 133) || (b =? 160)))%nat then 2
               else match u with
                    | EmptyString => 0
                    | String c _ =>
                        let c := nat_of_ascii c in
                        if ((a =? 225) && (b =? 154) && (c =? 128))%nat then 3
                        else if ((a =? 226) && (b =? 128) &&
                                 (((128 <=? c) && (c <=? 138)) || (c =? 168) ||
                                  (c =? 169) || (c =? 175)))%nat then 3
                        else if ((a =? 226) && (b =? 129) && (c =? 159))%nat then 3
                        else if ((a =? 227) && (b =? 128) && (c =? 128))%nat then 3
                        else 0
                    end
           end
  end.

(** Is [s] made of white space runes only? *)
Fixpoint all_white (s : string) : bool :=
  match s with
  | EmptyString => true
  | String _ t =>
      match white s with
      | 1 => all_white t
      | 2 => match t with
             | String _ u => all_white u
             | EmptyString => false
             end
      | 3 => match t with
             | String _ (String _ v) => all_white v
             | _ => false
             end
      | _ => false
      end
  end.

(** [strings.TrimLeftFunc(s, unicode.IsSpace)]. *)
Fixpoint TrimLeft (s : string) : string :=
  match s with
  | EmptyString => EmptyString
  | String _ t =>
      match white s with
      | 1 => TrimLeft t
      | 2 => match t with
             | String _ u => TrimLeft u
             | EmptyString => s
             end
      | 3 => match t with
             | String _ (String _ v) => TrimLeft v
             | _ => s
             end
      | _ => s
      end
  end.

(** [strings.TrimRightFunc(s, unicode.IsSpace)]: the longest suffix made
    of white space runes goes. *)
Fixpoint TrimRight (s : string) : string :=
  match s with
  | EmptyString => EmptyString
  | String c t => if all_white s then EmptyString else String c (TrimRight t)
  end.

(** [strings.TrimSpace]. *)
Definition TrimSpace (s : string) : string := TrimRight (TrimLeft s).

(** ** The status parser's helpers *)

(** [type StatLine struct { indexStat, workStat, oldPath, newPath string }] *)
Record StatLine : Type := mkStatLine {
  indexStat : string;
  workStat : string;
  oldPath : string;
  newPath : string
}.

(** [var statMap]: the human label of a status code. *)
Definition statMap (code : string) : string :=
  if String.eqb code " " then "unmodified"
  else if String.eqb code "M" then "modified"
  else if String.eqb code "A" then "added"
  else if String.eqb code "D" then "deleted"
  else if String.eqb code "R" then "renamed"
  else if String.eqb code "C" then "copied"
  else if String.eqb code "U" then "unmerged"
  else if String.eqb code "?" then "untracked"
  else if String.eqb code "!" then "ignored"
  else EmptyString.

(** The character class [[ MADRCU!?]] of [statusRE] (both classes list the
    same nine characters). *)
Definition status_code (c : ascii) : bool :=
  existsb (Ascii.eqb c) (list_ascii_of_string " MADRCU!?").

(** [.] of a Go regular expression: anything but a newline. *)
Fixpoint dots (s : string) : bool :=
  match s with
  | EmptyString => true
  | String c s' => negb (Ascii.eqb c (ascii_of_nat 10)) && dots s'
  end.

(** [statusRE.FindStringSubmatch(line)]: the pattern is anchored at both
    ends and asks for one status character, another one, a space and then
    any number of [.]; the result is the whole match followed by the three
    groups, or [None] for [nil]. *)
Definition statusRE_FindStringSubmatch (line : string) : option (list string) :=
  match line with
  | String x (String y (String sp path)) =>
      if status_code x && status_code y && Ascii.eqb sp " " && dots path
      then Some [line; String x EmptyString; String y EmptyString; path]
      else None
  | _ => None
  end.

(** [bytes.Buffer.ReadString(delim)]: the bytes up to and including the
    first [delim], the rest of the buffer, and whether [delim] was found;
    without one, everything left is handed out together with [io.EOF]. *)
Fixpoint ReadString (buf : string) (delim : ascii) : string * string * bool :=
  match buf with
  | EmptyString => (EmptyString, EmptyString, false)
  | String c buf' =>
      if Ascii.eqb c delim then (String c EmptyString, buf', true)
      else let '(line, rest, found) := ReadString buf' delim in
           (String c line, rest, found)
  end.

Inductive LoopEnd : Type :=
  | Broke (thisStat : option StatLine) (res : list StatLine)
  | Panicked (msg : string)
  | Unfinished.

(** The [for] loop of [mapStatus] over the captured output; [n] bounds the
    number of iterations. *)
Fixpoint mapStatus_loop (n : nat) (out : string)
    (thisStat : option StatLine) (res : list StatLine) : LoopEnd :=
  match n with
  | 0 => Unfinished
  | S n' =>
      let '(line, out', found) := ReadString out zero in
      if negb found then Broke thisStat res
      else
        match statusRE_FindStringSubmatch line with
        | Some parts =>
            let res' := match thisStat with
                        | Some st => res ++ [st]
                        | None => res
                        end in
            let p i := nth i parts EmptyString in
            mapStatus_loop n' out' (Some (mkStatLine (p 1) (p 2) (p 3) (p 3))) res'
        | None =>
            match thisStat with
            | Some st =>
                mapStatus_loop n' out'
                  (Some (mkStatLine (indexStat st) (workStat st) (oldPath st) line)) res
            | None => Panicked "Cannot happen!"
            end
        end
  end.

(** What [mapStatus] does with the output of a status query that ran. *)
Definition parse_status (out : string) : LoopEnd :=
  match mapStatus_loop (S (String.length out)) out None [] with
  | Broke (Some st) res => Broke None (res ++ [st])
  | e => e
  end.

(** ** Loading the ref cache: the pure part of [load_refs] *)

(** One round of the scanner loop: [parts[0]] and [parts[1]] of the
    trimmed line; a line without a space has no [parts[1]] and the index
    expression panics. *)
Definition load_line (line : string) : option Ref :=
  let parts := SplitN (TrimSpace line) " " 2 in
  match parts !! 0, parts !! 1 with
  | Some p0, Some p1 => Some (mkRef p0 p1)
  | _, _ => None
  end.

(** [res[ref.Name()] = ref] for every scanned line, in order. *)
Fixpoint load_loop (lines : list string) (res : RefMap) : option RefMap :=
  match lines with
  | [] => Some res
  | line :: lines' =>
      match load_line line with
      | Some ref => load_loop lines' (<[Ref_Name ref := ref]> res)
      | None => None
      end
  end.

(** The refs the enumeration names, whether or not a later line replaces
    them in the map. *)
Definition enumerated (out : string) : list Ref :=
  omap load_line (ScanLines out).

(** [base interface{}] of [make_ref]: a [*Ref] (possibly nil), a [string],
    or a value of any other type. *)
Inductive Base : Type :=
  | BaseRef (i : option Ref)
  | BaseString (i : string)
  | BaseOther.

(** The four prefixes [Repo.Ref] tries, in the order of the slice literal. *)
Definition ref_prefixes : list string :=
  [""; "refs/heads/"; "refs/tags"; "refs/remotes"].

(** [r.refs[key]] on a map that may be nil. *)
Definition refs_lookup (r : Repo) (key : string) : option Ref :=
  match refs r with
  | Some m => m !! key
  | None => None
  end.

(** The [for ... range] loop of [Repo.Ref]: the first prefix whose key is
    in the map decides. *)
Fixpoint find_ref (r : Repo) (ref : string) (prefixes : list string) : option Ref :=
  match prefixes with
  | [] => None
  | prefix :: prefixes' =>
      match refs_lookup r (prefix +:+ ref) with
      | Some res => Some res
      | None => find_ref r ref prefixes'
      end
  end.

Section Operations.

(** The external tool: running a command in a world yields its result
    and the world after it. *)
Context {W : Type}.
Variable exec : W -> Cmd -> CmdResult * W.

(** [cmd.Run()]. *)
Definition Run (c : Cmd) : M W CmdResult :=
  fun s =>
    let '(res, w) := exec (world s) c in
    Returns res (mkState (repo s) w (config s) (trace s ++ [Exec c])).

(** Modelled from the spec: the config store ([Repo.Get], [Repo.Set] and
    [Repo.maybeKillSection] live in a file that is not among the
    sources).  A key/value mapping with section aware get, set and
    delete: [Get] reads a key and reports whether it exists. *)
Definition Repo_Get (k : string) : M W (string * bool) :=
  fun s =>
    match config s !! k with
    | Some v => Returns (v, true) s
    | None => Returns (EmptyString, false) s
    end.

(** Modelled from the spec: [Set] writes one key of the config store. *)
Definition Repo_Set (k v : string) : M W unit :=
  fun s =>
    Returns tt
      (mkState (repo s) (world s) (<[k := v]> (config s)) (trace s ++ [ConfigSet k v])).

(** Modelled from the spec: [maybeKillSection] clears a section, that is
    every key [section.*] of the config store. *)
Definition Repo_maybeKillSection (section : string) : M W unit :=
  fun s =>
    Returns tt
      (mkState (repo s) (world s)
         (filter (fun kv => HasPrefix kv.1 (section +:+ ".") = false) (config s))
         (trace s ++ [ConfigKill section])).

(** [func (r *Repo) load_refs()] *)
Definition Repo_load_refs : M W unit :=
  let* r := get_repo in
  match refs r with
  | Some _ => ret tt
  | None =>
      let* res := Run (Repo_Git r "show-ref" []) in
      match run_err res with
      | Some _ => panic (stderr res)
      | None =>
          match load_loop (ScanLines (stdout res)) ∅ with
          | Some m => set_refs (Some m)
          | None => panic "runtime error: index out of range"
          end
      end
  end.


(** [func (r *Repo) HasRef(ref string) bool] *)
Definition Repo_HasRef (ref : string) : M W bool :=
  let* _ := Repo_load_refs in
  let* r := get_repo in
  ret (bool_decide (is_Some (refs_lookup r ref))).

(** [func (r *Ref) Delete() (err error)] *)
Definition Ref_Delete (r : Ref) : M W error :=
  let run_delete (c : string) : M W error :=
    let* rp := get_repo in
    let* res := Run (Repo_Git rp c ["-d"; Ref_Name r]) in
    match run_err res with
    | None =>
        let* rp := get_repo in
        let* _ := set_refs (delete (Ref_Name r) <$> refs rp) in
        ret None
    | Some e => ret (Some e)
    end in
  if Ref_IsRemote r then ret (Some "Cannot delete a remote ref!")
  else if Ref_IsHead r then ret (Some "Cannot delete HEAD!")
  else if Ref_IsTag r then run_delete "tag"
  else if Ref_IsLocal r then run_delete "branch"
  else panic "Cannot happen!".

(** [func (r *Ref) RemoteBranch(remote string) (res *Ref, err error)];
    the map is read as it is, nothing is loaded. *)
Definition Ref_RemoteBranch (r : Ref) (remote : string) : M W (option Ref * error) :=
  if negb (Ref_IsLocal r)
  then ret (None, Some (Path r +:+ " is not a branch, cannot find remote tracking branch." +:+ nl))
  else
    let* rp := get_repo in
    match refs_lookup rp ("refs/remotes/" +:+ remote +:+ "/" +:+ Ref_Name r) with
    | Some res => ret (Some res, None)
    | None =>
        ret (None, Some (Path r +:+ " has no remote branch at " +:+ remote +:+ nl))
    end.

(** [func (r *Ref) HasRemoteRef(remote string) (ok bool)] *)
Definition Ref_HasRemoteRef (r : Ref) (remote : string) : M W bool :=
  if negb (Ref_IsLocal r) then ret false
  else Repo_HasRef ("refs/remotes/" +:+ remote +:+ "/" +:+ Ref_Name r).

(** [func (r *Ref) Contains(other *Ref) (bool, error)] *)
Definition Ref_Contains (r other : Ref) : M W (bool * error) :=
  if String.eqb (SHA r) (SHA other) then ret (true, None)
  else
    let* rp := get_repo in
    let* res := Run (Repo_Git rp "rev-list" [SHA other; "^" +:+ SHA r]) in
    match run_err res with
    | Some e => ret (false, Some e)
    | None => ret (Nat.eqb (String.length (stdout res)) 0, None)
    end.

(** [func (r *Ref) TrackRemote(remote string) (err error)] *)
Definition Ref_TrackRemote (r : Ref) (remote : string) : M W error :=
  if negb (Ref_IsLocal r)
  then ret (Some (Path r +:+ " is not a branch, we cannot track it."))
  else
    let section := "branch." +:+ Ref_Name r in
    let* br := Repo_Get (section +:+ ".remote") in
    let* bm := Repo_Get (section +:+ ".merge") in
    let branch_remote := br.1 in
    let branch_remote_exists := br.2 in
    let branch_merge := bm.1 in
    let branch_merge_exists := bm.2 in
    if branch_remote_exists && branch_merge_exists &&
       String.eqb branch_remote remote && String.eqb branch_merge (Path r)
    then ret None
    else
      let* _ := (if branch_remote_exists || branch_merge_exists
                 then Repo_maybeKillSection section else ret tt) in
      let* _ := Repo_Set (section +:+ ".remote") remote in
      let* _ := Repo_Set (section +:+ ".merge") (Path r) in
      ret None.

(** [func (r *Repo) Ref(ref string) (res *Ref, err error)] *)
Definition Repo_Ref (ref : string) : M W (option Ref * error) :=
  let* _ := Repo_load_refs in
  let* r := get_repo in
  match find_ref r ref ref_prefixes with
  | Some res => ret (Some res, None)
  | None =>
      let* res := Run (Repo_Git r "rev-parse" ["-q"; "--verify"; ref]) in
      match run_err res with
      | Some _ => ret (Some (mkRef ref ref), None)
      | None => ret (None, Some ("No ref for " +:+ ref))
      end
  end.

(** [func (r *Repo) make_ref(reftype string, name string, base interface{})] *)
Definition Repo_make_ref (reftype name : string) (base : Base) : M W (option Ref * error) :=
  let* _ := Repo_load_refs in
  let* r := get_repo in
  let reload : M W (option Ref * error) :=
    let* _ := set_refs None in
    let* _ := Repo_load_refs in
    let* r := get_repo in
    ret (refs_lookup r name, None) in
  let create (arg : string) : M W (option Ref * error) :=
    let* res := Run (Repo_Git r reftype [name; arg]) in
    match run_err res with
    | Some e => ret (None, Some e)
    | None => reload
    end in
  if String.eqb name "HEAD" then ret (None, Some "Cannot create a branch named HEAD.")
  else if bool_decide (is_Some (refs_lookup r name))
  then ret (None, Some (name +:+ " already exists."))
  else if negb (String.eqb reftype "branch" || String.eqb reftype "tag")
  then ret (None, Some "Unknown ref type!")
  else
    match base with
    | BaseRef (Some i) => create (Ref_Name i)
    | BaseRef None => panic "runtime error: invalid memory address or nil pointer dereference"
    | BaseString i => create i
    | BaseOther => ret (None, Some "Unknown type for base!")
    end.



(** [func (r *Repo) mapStatus() (res StatLines)] *)
Definition Repo_mapStatus : M W (list StatLine) :=
  let* r := get_repo in
  let* res := Run (Repo_Git r "status" ["--porcelain"; "-z"]) in
  match run_err res with
  | Some _ => panic (stderr res)
  | None =>
      match parse_status (stdout res) with
      | Broke _ lines => ret lines
      | Panicked msg => panic msg
      | Unfinished => panic "unreachable"
      end
  end.

(** [func (r *Repo) IsClean() (res bool, lines StatLines)] *)
Definition Repo_IsClean : M W (bool * list StatLine) :=
  let* lines := Repo_mapStatus in
  ret (Nat.eqb (List.length lines) 0, lines).

End Operations.

(** ** Vocabulary of the statements *)

(** No ["/"] in [s]. *)
Fixpoint slash_free (s : string) : bool :=
  match s with
  | EmptyString => true
  | String c s' => negb (Ascii.eqb c "/") && slash_free s'
  end.

(** The last path segment of [p]: what follows its last ["/"]. *)
Fixpoint last_segment (p : string) : string :=
  match p with
  | EmptyString => EmptyString
  | String _ p' => if slash_free p then p else last_segment p'
  end.

(** The standard forms of a ref path: ["HEAD"] or ["refs/<type>/..."]. *)
Definition standard_path (p : string) : Prop :=
  p = "HEAD" \/
  exists type rest, slash_free type = true /\ p = "refs/" +:+ type +:+ "/" +:+ rest.

(** A standard path whose part after ["refs/<type>/"] is not itself the
    full path of a remote-tracking ref. *)
Definition plain_standard_path (p : string) : Prop :=
  p = "HEAD" \/
  exists type rest,
    slash_free type = true /\ HasPrefix rest "refs/remotes/" = false /\
    p = "refs/" +:+ type +:+ "/" +:+ rest.

(** The keys of the config store that [TrackRemote] reads and writes. *)
Definition track_section (r : Ref) : string := "branch." +:+ Ref_Name r.
Definition track_remote_key (r : Ref) : string := track_section r +:+ ".remote".
Definition track_merge_key (r : Ref) : string := track_section r +:+ ".merge".

(** The config already states the remote and the merge target. *)
Definition tracks {W} (r : Ref) (remote : string) (st : State W) : Prop :=
  config st !! track_remote_key r = Some remote /\
  config st !! track_merge_key r = Some (Path r).

(** The state after the writes of [TrackRemote]: the section is cleared
    first when one of the two keys exists. *)
Definition retracked {W} (r : Ref) (remote : string) (st : State W) : State W :=
  let stale := bool_decide (is_Some (config st !! track_remote_key r) \/
                            is_Some (config st !! track_merge_key r)) in
  let cleared :=
    if stale
    then filter (fun kv => HasPrefix kv.1 (track_section r +:+ ".") = false) (config st)
    else config st in
  mkState (repo st) (world st)
    (<[track_merge_key r := Path r]> (<[track_remote_key r := remote]> cleared))
    (trace st ++ (if stale then [ConfigKill (track_section r)] else []) ++
       [ConfigSet (track_remote_key r) remote; ConfigSet (track_merge_key r) (Path r)]).

(** ** A scripted external tool, to run the operations on concrete inputs *)

(** The tool answers from a table keyed by argument list; a command that
    is not in the table fails. *)
Definition Script : Type := list (list string * CmdResult).

Fixpoint script_answer (w : Script) (args : list string) : CmdResult :=
  match w with
  | [] => mkCmdResult (Some "exit status 1") EmptyString EmptyString
  | (a, res) :: w' => if bool_decide (a = args) then res else script_answer w' args
  end.

Definition script_exec (w : Script) (c : Cmd) : CmdResult * Script :=
  (script_answer w (Args c), w).

Definition succeeded (out : string) : CmdResult := mkCmdResult None out EmptyString.

Definition fresh (w : Script) (cf : ConfigMap) : State Script :=
  mkState (mkRepo "/srv/demo/.git" "/srv/demo" None None) w cf [].

Definition with_refs (m : RefMap) (w : Script) : State Script :=
  mkState (mkRepo "/srv/demo/.git" "/srv/demo" (Some m) None) w ∅ [].

Definition master : Ref := mkRef "5d1f" "refs/heads/master".
Definition origin_master : Ref := mkRef "5d1f" "refs/remotes/origin/master".
Definition head_ref : Ref := mkRef "5d1f" "HEAD".
Definition raw_ref : Ref := mkRef "5d1f" "5d1f".

(** A repository with a branch whose name spells the path of a
    remote-tracking ref. *)
Definition nested_out : string :=
  "5d1f refs/heads/master" +:+ nl +:+
  "77aa refs/heads/refs/remotes/origin/master" +:+ nl.

Definition nested_world : Script := [(["show-ref"], succeeded nested_out)].

Definition nested_branch : Ref := mkRef "77aa" "refs/heads/refs/remotes/origin/master".

Definition nested_refs : RefMap :=
  <["refs/remotes/origin/master" := nested_branch]> (<["master" := master]> ∅).

(** An ordinary repository: one branch, one tag, one remote-tracking ref. *)
Definition plain_out : string :=
  "5d1f refs/heads/master" +:+ nl +:+
  "5d1f refs/remotes/origin/master" +:+ nl +:+
  "9c02 refs/tags/v1" +:+ nl.

Definition plain_refs : RefMap :=
  <["v1" := mkRef "9c02" "refs/tags/v1"]>
    (<["origin/master" := origin_master]> (<["master" := master]> ∅)).

(** The state [load_refs] leaves on the nested repository. *)
Definition nested_loaded : State Script :=
  mkState (mkRepo "/srv/demo/.git" "/srv/demo" (Some nested_refs) None)
    nested_world ∅ [Exec (mkCmd "/srv/demo" ["show-ref"])].

(** A cache that holds a ref under the bare key "foo" and another one
    under the key "refs/heads/foo". *)
Definition foo_tag : Ref := mkRef "9c02" "refs/tags/foo".
Definition foo_branch : Ref := mkRef "77aa" "refs/heads/refs/heads/foo".

Definition foo_refs : RefMap :=
  <["foo" := foo_tag]> (<["refs/heads/foo" := foo_branch]> ∅).

(** A tool that verifies the revision "5d1f" and nothing else. *)
Definition verify_world : Script :=
  [(["rev-parse"; "-q"; "--verify"; "5d1f"], succeeded EmptyString)].

Definition verified (name : string) : State Script :=
  mkState (mkRepo "/srv/demo/.git" "/srv/demo" (Some plain_refs) None)
    verify_world ∅ [Exec (mkCmd "/srv/demo" ["rev-parse"; "-q"; "--verify"; name])].

Definition plain_world : Script := [(["show-ref"], succeeded plain_out)].

(** The state [load_refs] leaves on the ordinary repository. *)
Definition plain_loaded : State Script :=
  mkState (mkRepo "/srv/demo/.git" "/srv/demo" (Some plain_refs) None)
    plain_world ∅ [Exec (mkCmd "/srv/demo" ["show-ref"])].

(** Config stores for the branch [master]: one that already tracks
    "origin", one with a stale remote and no merge key. *)
Definition tracked_cfg : ConfigMap :=
  <["branch.master.merge" := "refs/heads/master"]>
    (<["branch.master.remote" := "origin"]> (<["user.name" := "demo"]> ∅)).

Definition stale_cfg : ConfigMap :=
  <["branch.master.remote" := "upstream"]> (<["user.name" := "demo"]> ∅).

(** The rename record of the porcelain format: two NUL terminated parts. *)
Definition rename_out : string :=
  "R  new.txt" +:+ String zero ("old.txt" +:+ String zero EmptyString).

Definition status_cmd : Cmd := mkCmd "/srv/demo" ["status"; "--porcelain"; "-z"].

Definition status_world : Script := [(Args status_cmd, succeeded rename_out)].

(** The state a status query leaves. *)
Definition status_done : State Script :=
  mkState (mkRepo "/srv/demo/.git" "/srv/demo" None None) status_world ∅ [Exec status_cmd].

(** ** The remaining ref operations *)

Section MoreOperations.

Context {W : Type}.
Variable exec : W -> Cmd -> CmdResult * W.

(** [func (r *Ref) Tracks() (remote string, err error)].  The last
    [fmt.Errorf] has a verb and no operand, which prints as
    [%!s(MISSING)]. *)
Definition Ref_Tracks (r : Ref) : M W (string * error) :=
  if negb (Ref_IsLocal r)
  then ret (EmptyString,
            Some (Path r +:+ " is not a branch, it does not track anything."))
  else
    let* got := Repo_Get ("branch." +:+ Ref_Name r +:+ ".remote") in
    let remote := got.1 in
    let remote_exists := got.2 in
    if remote_exists then ret (remote, None)
    else ret (EmptyString, Some "%!s(MISSING) does not track a remote").

(** [func (r *Repo) Checkout(ref string) (err error)] *)
Definition Repo_Checkout (ref : string) : M W error :=
  let* r := get_repo in
  let* res := Run exec (Repo_Git r "checkout" ["-q"; ref]) in
  ret (run_err res).

(** [func (r *Ref) Checkout() (err error)] *)
Definition Ref_Checkout (r : Ref) : M W error :=
  let ref := if Ref_IsLocal r || Ref_IsTag r then Ref_Name r else SHA r in
  let* rp := get_repo in
  let* res := Run exec (Repo_Git rp "checkout" ["-q"; ref]) in
  ret (run_err res).

End MoreOperations.

(** ** Vocabulary of the further statements *)

(** How many of the four classifications a ref has. *)
Definition classifications (r : Ref) : nat :=
  Nat.b2n (Ref_IsLocal r) + Nat.b2n (Ref_IsRemote r) +
  Nat.b2n (Ref_IsTag r) + Nat.b2n (Ref_IsHead r).


(** No NUL byte in [s]. *)
Fixpoint nul_free (s : string) : bool :=
  match s with
  | EmptyString => true
  | String c s' => negb (Ascii.eqb c zero) && nul_free s'
  end.

Definition terminated (s : string) : string := s +:+ String zero EmptyString.

(** One entry of a porcelain status report: the two status characters,
    the path, and the second path that a rename or copy adds. *)
Record StatusRecord : Type := mkStatusRecord {
  rec_index : ascii;
  rec_work : ascii;
  rec_path : string;
  rec_second : option string
}.

(** The bytes of an entry, each part NUL terminated. *)
Definition encode_record (e : StatusRecord) : string :=
  String (rec_index e) (String (rec_work e) (String " " (terminated (rec_path e)))) +:+
  match rec_second e with
  | Some q => terminated q
  | None => EmptyString
  end.

Fixpoint encode_records (l : list StatusRecord) : string :=
  match l with
  | [] => EmptyString
  | e :: l' => encode_record e +:+ encode_records l'
  end.

(** The StatLine [mapStatus] builds from an entry. *)
Definition record_line (e : StatusRecord) : StatLine :=
  mkStatLine (String (rec_index e) EmptyString) (String (rec_work e) EmptyString)
    (terminated (rec_path e))
    (match rec_second e with
     | Some q => terminated q
     | None => terminated (rec_path e)
     end).

(** Entries that the parser can tell apart: valid status characters, no
    NUL inside a path, no newline in the first path, and a second path
    that does not itself read as a status line. *)
Definition parsable (e : StatusRecord) : Prop :=
  status_code (rec_index e) = true /\ status_code (rec_work e) = true /\
  nul_free (rec_path e) = true /\ dots (rec_path e) = true /\
  match rec_second e with
  | Some q => nul_free q = true /\ statusRE_FindStringSubmatch (terminated q) = None
  | None => True
  end.

(** Both status codes of a StatLine have a label in [statMap]. *)
Definition labelled (s : StatLine) : Prop :=
  statMap (indexStat s) <> EmptyString /\ statMap (workStat s) <> EmptyString.



(** The state right after running [c]. *)
Definition after_run {W} (exec : W -> Cmd -> CmdResult * W) (c : Cmd) (st : State W) : State W :=
  mkState (repo st) (exec (world st) c).2 (config st) (trace st ++ [Exec c]).


(** Appending a pending StatLine, as [mapStatus] does before it starts a
    new one and once more after the loop. *)
Definition flush (thisStat : option StatLine) (res : list StatLine) : list StatLine :=
  match thisStat with
  | Some st => res ++ [st]
  | None => res
  end.

(** ** Concrete inputs for the further statements *)






(** A tool that deletes the branch "master" and refuses everything else. *)
Definition delete_world : Script := [(["branch"; "-d"; "master"], succeeded EmptyString)].




(** A tool for which the tag "v1" holds nothing that [master] lacks. *)
Definition contains_world : Script := [(["rev-list"; "9c02"; "^5d1f"], succeeded EmptyString)].

Definition tag_v1 : Ref := mkRef "9c02" "refs/tags/v1".

(** A status report with a rename, a modified file and an untracked one,
    followed by bytes that no NUL ends. *)
Definition report : list StatusRecord :=
  [mkStatusRecord "R" " " "new.txt" (Some "old.txt");
   mkStatusRecord " " "M" "a.go" None;
   mkStatusRecord "?" "?" "b c.txt" None].

Definition report_world : Script :=
  [(Args status_cmd, succeeded (encode_records report +:+ "cut"))].

(** A report whose first record is not a status line: its path holds a
    newline. *)
Definition newline_world : Script :=
  [(Args status_cmd, succeeded (" M a" +:+ nl +:+ terminated "b"))].

(** * Properties *)

(** ** The definitions on small inputs *)

Example name_branch : Ref_Name master = "master".
Proof. reflexivity. Qed.

Example name_head : Ref_Name head_ref = "HEAD".
Proof. reflexivity. Qed.

Example name_nested_branch :
  Ref_Name (mkRef "1f" "refs/heads/feature/login") = "feature/login".
Proof. reflexivity. Qed.

Example remote_of_origin_master : Ref_Remote origin_master = ("origin", None).
Proof. reflexivity. Qed.

Example trim_line :
  TrimSpace ("  ab12 refs/heads/x y" +:+ String (ascii_of_nat 9) nl) = "ab12 refs/heads/x y".
Proof. reflexivity. Qed.

Example scan_lines :
  ScanLines ("a b" +:+ String (ascii_of_nat 13) nl +:+ nl +:+ "c d") = ["a b"; ""; "c d"].
Proof. reflexivity. Qed.

Example load_plain : load_loop (ScanLines plain_out) ∅ = Some plain_refs.
Proof. vm_compute. reflexivity. Qed.

Example load_line_without_space : load_line "5d1f" = None.
Proof. reflexivity. Qed.

(** ** Strings *)

Local Arguments String.append !_ _ : simpl nomatch.

Lemma append_inj_r (s a b : string) : s +:+ a = s +:+ b -> a = b.
Proof.
  induction s as [|c s IH]; simpl; intros H; [assumption|].
  injection H as H. auto.
Qed.

Lemma HasPrefix_app (s p q : string) :
  HasPrefix s (p +:+ q) = true -> HasPrefix s p = true.
Proof.
  revert s. induction p as [|c p IH]; intros s H; simpl in *; [reflexivity|].
  destruct s as [|d s]; [discriminate|].
  apply andb_prop in H as [Hd Hs]. rewrite Hd. simpl. eauto.
Qed.

Lemma HasPrefix_append (p s : string) : HasPrefix (p +:+ s) p = true.
Proof.
  induction p as [|c p IH]; simpl; [reflexivity|].
  rewrite Ascii.eqb_refl. exact IH.
Qed.

Lemma cut_slash_free (a b : string) :
  slash_free a = true -> cut "/" (a +:+ String "/" b) = Some (a, b).
Proof.
  induction a as [|c a IH]; simpl; intros H; [reflexivity|].
  apply andb_prop in H as [Hc Ha].
  apply negb_true_iff in Hc. rewrite Hc, (IH Ha). reflexivity.
Qed.

Lemma cut_none (p : string) : slash_free p = true -> cut "/" p = None.
Proof.
  induction p as [|c p IH]; simpl; intros H; [reflexivity|].
  apply andb_prop in H as [Hc Hp].
  apply negb_true_iff in Hc. rewrite Hc, (IH Hp). reflexivity.
Qed.

(** The three shapes of a path and what [Name] makes of each. *)
Lemma Ref_Name_no_slash (r : Ref) : slash_free (Path r) = true -> Ref_Name r = Path r.
Proof.
  intros H. unfold Ref_Name. simpl. rewrite (cut_none _ H). reflexivity.
Qed.

Lemma Ref_Name_one_slash (r : Ref) (a b : string) :
  slash_free a = true -> slash_free b = true ->
  Path r = a +:+ "/" +:+ b -> Ref_Name r = b.
Proof.
  intros Ha Hb HP. unfold Ref_Name. rewrite HP. simpl.
  rewrite (cut_slash_free a b Ha), (cut_none _ Hb). reflexivity.
Qed.

Lemma Ref_Name_two_slashes (r : Ref) (a b rest : string) :
  slash_free a = true -> slash_free b = true ->
  Path r = a +:+ "/" +:+ b +:+ "/" +:+ rest -> Ref_Name r = rest.
Proof.
  intros Ha Hb HP. unfold Ref_Name. rewrite HP. simpl.
  rewrite (cut_slash_free a _ Ha), (cut_slash_free b rest Hb). reflexivity.
Qed.

(** C4 (as amended): [Name()] is the last of the at most three pieces
    that splitting [Path] at its first two slashes gives: [Path] itself
    when it has no slash, what follows the slash when it has one, and
    everything after the second slash otherwise.  For a remote-tracking
    ref ["refs/remotes/<remote>/<branch>"] that is ["<remote>/<branch>"]. *)
Theorem Ref_Name_after_second_slash (r : Ref) :
  (slash_free (Path r) = true -> Ref_Name r = Path r) /\
  (forall a b, slash_free a = true -> slash_free b = true ->
     Path r = a +:+ "/" +:+ b -> Ref_Name r = b) /\
  (forall a b rest, slash_free a = true -> slash_free b = true ->
     Path r = a +:+ "/" +:+ b +:+ "/" +:+ rest -> Ref_Name r = rest) /\
  (forall remote branch,
     Path r = "refs/remotes/" +:+ remote +:+ "/" +:+ branch ->
     Ref_Name r = remote +:+ "/" +:+ branch).
Proof.
  split; [apply Ref_Name_no_slash|].
  split; [apply Ref_Name_one_slash|].
  split; [apply Ref_Name_two_slashes|].
  intros remote branch HP.
  apply (Ref_Name_two_slashes r "refs" "remotes"); [reflexivity | reflexivity | exact HP].
Qed.

Lemma Ref_Name_after_second_slash_witness :
  Ref_Name origin_master = "origin" +:+ "/" +:+ "master".
Proof.
  exact (proj2 (proj2 (proj2 (Ref_Name_after_second_slash origin_master)))
           "origin" "master" eq_refl).
Defined.

(** C4 as stated fails on a remote-tracking ref: the name keeps the remote
    and is not the last path segment. *)
Lemma Ref_Name_keeps_remote :
  Ref_Name origin_master = "origin/master" /\
  last_segment (Path origin_master) = "master" /\
  Ref_Name origin_master <> "master".
Proof. repeat split. discriminate. Qed.

Lemma unclassified_raw (name : string) :
  name <> "HEAD" -> HasPrefix name "refs/" = false ->
  let r := mkRef name name in
  Ref_IsRemote r = false /\ Ref_IsHead r = false /\
  Ref_IsTag r = false /\ Ref_IsLocal r = false.
Proof.
  intros Hhead Hrefs r.
  assert (Hno : forall q, HasPrefix name ("refs/" +:+ q) = false).
  { intros q. destruct (HasPrefix name ("refs/" +:+ q)) eqn:E; [|reflexivity].
    apply HasPrefix_app in E. congruence. }
  repeat split.
  - apply (Hno "remotes/").
  - unfold Ref_IsHead. simpl. apply String.eqb_neq. exact Hhead.
  - apply (Hno "tags/").
  - apply (Hno "heads/").
Qed.

(** ** Guards that answer before anything is run *)

Section Guards.

Context {W : Type}.
Variable exec : W -> Cmd -> CmdResult * W.

(** C9: [r.Contains(r)] is [(true, nil)]; the state that comes back is the
    state that went in, so no revision-range query was started. *)
Theorem Ref_Contains_reflexive (r : Ref) (st : State W) :
  Ref_Contains exec r r st = Returns (true, None) st.
Proof.
  unfold Ref_Contains. rewrite String.eqb_refl. reflexivity.
Qed.

(** C6: [Delete()] on HEAD or on a remote-tracking ref returns its error
    in the unchanged state: nothing is added to the trace and the ref
    cache is the one it found. *)
Theorem Ref_Delete_guards (r : Ref) (st : State W) :
  Path r = "HEAD" \/ Ref_IsRemote r = true ->
  Ref_Delete exec r st =
    Returns (Some (if Ref_IsRemote r then "Cannot delete a remote ref!"
                   else "Cannot delete HEAD!")) st.
Proof.
  intros [Hhead | Hremote]; unfold Ref_Delete.
  - destruct (Ref_IsRemote r); [reflexivity|].
    unfold Ref_IsHead. rewrite Hhead. reflexivity.
  - rewrite Hremote. reflexivity.
Qed.

(** C10: a ref that is neither remote, HEAD, tag nor local makes
    [Delete()] panic with "Cannot happen!". *)
Theorem Ref_Delete_unclassified_panics (r : Ref) (st : State W) :
  Ref_IsRemote r = false -> Ref_IsHead r = false ->
  Ref_IsTag r = false -> Ref_IsLocal r = false ->
  Ref_Delete exec r st = Panics "Cannot happen!".
Proof.
  intros Hr Hh Ht Hl. unfold Ref_Delete. rewrite Hr, Hh, Ht, Hl. reflexivity.
Qed.

End Guards.

Lemma Ref_Delete_guards_witness :
  Ref_Delete script_exec head_ref (with_refs plain_refs []) =
    Returns (Some "Cannot delete HEAD!") (with_refs plain_refs []) /\
  Ref_Delete script_exec origin_master (with_refs plain_refs []) =
    Returns (Some "Cannot delete a remote ref!") (with_refs plain_refs []).
Proof.
  split.
  - apply (Ref_Delete_guards script_exec head_ref). left. reflexivity.
  - apply (Ref_Delete_guards script_exec origin_master). right. reflexivity.
Defined.

Lemma Ref_Delete_unclassified_panics_witness :
  Ref_Delete script_exec raw_ref (with_refs plain_refs []) = Panics "Cannot happen!".
Proof.
  apply (Ref_Delete_unclassified_panics script_exec raw_ref); reflexivity.
Defined.

(** ** Resolving and creating refs *)

Section Resolution.

Context {W : Type}.
Variable exec : W -> Cmd -> CmdResult * W.

Lemma load_refs_loaded (st : State W) (m : RefMap) :
  refs (repo st) = Some m -> Repo_load_refs exec st = Returns tt st.
Proof.
  intros H. unfold Repo_load_refs, bind, get_repo. rewrite H. reflexivity.
Qed.

(** A load that returns leaves a map behind, and has started at most the
    one enumeration. *)
Lemma load_refs_returns (st st' : State W) :
  Repo_load_refs exec st = Returns tt st' ->
  (exists m, refs (repo st') = Some m) /\
  (trace st' = trace st \/
   trace st' = trace st ++ [Exec (Repo_Git (repo st) "show-ref" [])]).
Proof.
  unfold Repo_load_refs, bind, get_repo.
  destruct (refs (repo st)) as [m|] eqn:E.
  - intros [= <-]. split; [eauto | left; reflexivity].
  - unfold Run. destruct (exec _ _) as [res w]. simpl.
    destruct (run_err res); [discriminate|].
    destruct (load_loop _ _) as [m|]; [|discriminate].
    intros [= <-]. simpl. split; [eauto | right; reflexivity].
Qed.

Lemma find_ref_first (r : Repo) (m : RefMap) (name : string) :
  refs r = Some m ->
  find_ref r name ref_prefixes =
    match m !! name with
    | Some v => Some v
    | None =>
        match m !! ("refs/heads/" +:+ name) with
        | Some v => Some v
        | None =>
            match m !! ("refs/tags" +:+ name) with
            | Some v => Some v
            | None => m !! ("refs/remotes" +:+ name)
            end
        end
    end.
Proof.
  intros H. unfold ref_prefixes, find_ref, refs_lookup. rewrite H.
  change ("" +:+ name) with name.
  repeat (destruct (m !! _); [reflexivity|]). reflexivity.
Qed.

(** C5: [Repo.Ref(name)] answers with the first hit among the keys
    [name], ["refs/heads/"+name], ["refs/tags"+name] and
    ["refs/remotes"+name] of the loaded cache, in this order; a ref stored
    under the bare key therefore wins over a branch. *)
Theorem Repo_Ref_priority (name : string) (st st' : State W) (m : RefMap) :
  Repo_load_refs exec st = Returns tt st' ->
  refs (repo st') = Some m ->
  (forall v, m !! name = Some v ->
     Repo_Ref exec name st = Returns (Some v, None) st') /\
  (forall v, m !! name = None ->
     m !! ("refs/heads/" +:+ name) = Some v ->
     Repo_Ref exec name st = Returns (Some v, None) st') /\
  (forall v, m !! name = None ->
     m !! ("refs/heads/" +:+ name) = None ->
     m !! ("refs/tags" +:+ name) = Some v ->
     Repo_Ref exec name st = Returns (Some v, None) st') /\
  (forall v, m !! name = None ->
     m !! ("refs/heads/" +:+ name) = None ->
     m !! ("refs/tags" +:+ name) = None ->
     m !! ("refs/remotes" +:+ name) = Some v ->
     Repo_Ref exec name st = Returns (Some v, None) st').
Proof.
  intros Hload Hm.
  assert (Hrun : forall v, find_ref (repo st') name ref_prefixes = Some v ->
                           Repo_Ref exec name st = Returns (Some v, None) st').
  { intros v Hv. unfold Repo_Ref, bind. rewrite Hload. unfold get_repo.
    rewrite Hv. reflexivity. }
  rewrite (find_ref_first _ _ name Hm) in Hrun.
  repeat split; intros v.
  - intros H1. apply Hrun. rewrite H1. reflexivity.
  - intros H1 H2. apply Hrun. rewrite H1, H2. reflexivity.
  - intros H1 H2 H3. apply Hrun. rewrite H1, H2, H3. reflexivity.
  - intros H1 H2 H3 H4. apply Hrun. rewrite H1, H2, H3. exact H4.
Qed.

(** What [Repo.Ref] does when no key matches: it runs the verification and
    hands out a raw ref exactly when the verification reports an error. *)
Lemma Repo_Ref_fallback (name : string) (st st' : State W) :
  Repo_load_refs exec st = Returns tt st' ->
  find_ref (repo st') name ref_prefixes = None ->
  let verify := Repo_Git (repo st') "rev-parse" ["-q"; "--verify"; name] in
  let after := mkState (repo st') (exec (world st') verify).2 (config st')
                 (trace st' ++ [Exec verify]) in
  Repo_Ref exec name st =
    match run_err (exec (world st') verify).1 with
    | Some _ => Returns (Some (mkRef name name), None) after
    | None => Returns (None, Some ("No ref for " +:+ name)) after
    end.
Proof.
  intros Hload Hnone verify after.
  unfold Repo_Ref, bind. rewrite Hload. unfold get_repo. rewrite Hnone.
  unfold Run. fold verify. subst after.
  destruct (exec (world st') verify) as [res w]. simpl.
  destruct (run_err res); reflexivity.
Qed.


End Resolution.

Lemma Repo_Ref_priority_witness :
  Repo_Ref script_exec "foo" (with_refs foo_refs []) =
    Returns (Some foo_tag, None) (with_refs foo_refs []).
Proof.
  apply (proj1 (Repo_Ref_priority script_exec "foo"
                  (with_refs foo_refs []) (with_refs foo_refs []) foo_refs
                  eq_refl eq_refl)).
  vm_compute. reflexivity.
Defined.

Example Repo_Ref_branch_only :
  Repo_Ref script_exec "foo" (with_refs (delete "foo" foo_refs) []) =
    Returns (Some foo_branch, None) (with_refs (delete "foo" foo_refs) []).
Proof. vm_compute. reflexivity. Qed.


(** C1, on the code: with no key matching, a revision that the tool
    verifies gets the error, and a name whose verification fails gets the
    raw ref. *)
Theorem Repo_Ref_verify_inverted :
  find_ref (repo (with_refs plain_refs verify_world)) "5d1f" ref_prefixes = None /\
  run_err (script_answer verify_world ["rev-parse"; "-q"; "--verify"; "5d1f"]) = None /\
  Repo_Ref script_exec "5d1f" (with_refs plain_refs verify_world) =
    Returns (None, Some "No ref for 5d1f") (verified "5d1f") /\
  find_ref (repo (with_refs plain_refs verify_world)) "nonsense" ref_prefixes = None /\
  run_err (script_answer verify_world ["rev-parse"; "-q"; "--verify"; "nonsense"]) =
    Some "exit status 1" /\
  Repo_Ref script_exec "nonsense" (with_refs plain_refs verify_world) =
    Returns (Some (mkRef "nonsense" "nonsense"), None) (verified "nonsense").
Proof. repeat split; vm_compute; reflexivity. Qed.

(** ** The ref cache is keyed by short names *)

Lemma load_loop_keys (lines : list string) :
  forall (res m : RefMap),
    load_loop lines res = Some m ->
    forall k v, m !! k = Some v ->
      res !! k = Some v \/ (Ref_Name v = k /\ v ∈ omap load_line lines).
Proof.
  induction lines as [|line lines IH]; intros res m Hloop k v Hk; simpl in *.
  - injection Hloop as <-. left. exact Hk.
  - destruct (load_line line) as [ref|] eqn:Hline; [|discriminate].
    destruct (IH _ _ Hloop k v Hk) as [Hres | [Hname Hin]].
    + destruct (decide (Ref_Name ref = k)) as [<- | Hne].
      * rewrite lookup_insert_eq in Hres. injection Hres as <-.
        right. split; [reflexivity | apply list_elem_of_here].
      * rewrite lookup_insert_ne in Hres by exact Hne. left. exact Hres.
    + right. split; [exact Hname | apply list_elem_of_further, Hin].
Qed.

Lemma plain_name_not_remote_key (v : Ref) (remote name : string) :
  plain_standard_path (Path v) ->
  Ref_Name v <> "refs/remotes/" +:+ remote +:+ "/" +:+ name.
Proof.
  intros [Hhead | (type & rest & Htype & Hrest & HP)] Hkey.
  - rewrite (Ref_Name_no_slash v) in Hkey by (rewrite Hhead; reflexivity).
    rewrite Hhead in Hkey. discriminate.
  - rewrite (Ref_Name_two_slashes v "refs" type rest eq_refl Htype HP) in Hkey.
    rewrite Hkey in Hrest.
    rewrite (HasPrefix_append "refs/remotes/" (remote +:+ "/" +:+ name)) in Hrest.
    discriminate.
Qed.

Section ShortNameCache.

Context {W : Type}.
Variable exec : W -> Cmd -> CmdResult * W.

(** C3 (as amended): after [load_refs] has populated the cache, every key
    is the short name of the enumerated ref stored under it.  So when
    every enumerated path is "HEAD" or "refs/<type>/<rest>" with a
    [<rest>] that does not itself begin with "refs/remotes/", no local ref
    has a remote branch: [RemoteBranch] returns its error and
    [HasRemoteRef] returns false, whatever the remote. *)
Theorem load_refs_keys_are_names (st st' : State W) :
  refs (repo st) = None ->
  Repo_load_refs exec st = Returns tt st' ->
  let out := stdout (exec (world st) (Repo_Git (repo st) "show-ref" [])).1 in
  (forall k v, refs_lookup (repo st') k = Some v ->
     Ref_Name v = k /\ v ∈ enumerated out) /\
  ((forall v, v ∈ enumerated out -> plain_standard_path (Path v)) ->
   forall r remote, Ref_IsLocal r = true ->
     Ref_RemoteBranch r remote st' =
       Returns (None, Some (Path r +:+ " has no remote branch at " +:+ remote +:+ nl)) st' /\
     Ref_HasRemoteRef exec r remote st' = Returns false st').
Proof.
  intros Hnil Hload out.
  assert (Hkeys : forall k v, refs_lookup (repo st') k = Some v ->
                    Ref_Name v = k /\ v ∈ enumerated out).
  { revert Hload. subst out. unfold Repo_load_refs, bind, get_repo, Run.
    rewrite Hnil.
    destruct (exec (world st) (Repo_Git (repo st) "show-ref" [])) as [res w]. simpl.
    destruct (run_err res); [discriminate|].
    destruct (load_loop (ScanLines (stdout res)) ∅) as [m|] eqn:Hloop; [|discriminate].
    intros [= <-] k v. unfold refs_lookup. simpl. intros Hk.
    destruct (load_loop_keys _ _ _ Hloop k v Hk) as [Hempty | H]; [|exact H].
    rewrite lookup_empty in Hempty. discriminate. }
  split; [exact Hkeys|].
  intros Hplain r remote Hlocal.
  assert (Hmiss : refs_lookup (repo st')
                    ("refs/remotes/" +:+ remote +:+ "/" +:+ Ref_Name r) = None).
  { destruct (refs_lookup _ _) as [v|] eqn:Hv; [|reflexivity].
    destruct (Hkeys _ _ Hv) as [Hname Hin].
    destruct (plain_name_not_remote_key v remote (Ref_Name r) (Hplain v Hin) Hname). }
  split.
  - unfold Ref_RemoteBranch, bind, get_repo. rewrite Hlocal. cbn [negb].
    rewrite Hmiss. reflexivity.
  - destruct (proj1 (load_refs_returns exec _ _ Hload)) as [m Hm].
    unfold Ref_HasRemoteRef, Repo_HasRef, bind. rewrite Hlocal. cbn [negb].
    rewrite (load_refs_loaded exec st' m Hm). unfold get_repo, ret.
    rewrite Hmiss. reflexivity.
Qed.

End ShortNameCache.

Lemma plain_enumeration :
  forall v, v ∈ enumerated plain_out -> plain_standard_path (Path v).
Proof.
  intros v Hv. vm_compute in Hv.
  repeat (apply elem_of_cons in Hv as [-> | Hv]).
  - right. exists "heads", "master". repeat split.
  - right. exists "remotes", "origin/master". repeat split.
  - right. exists "tags", "v1". repeat split.
  - inversion Hv.
Qed.

Lemma load_plain_state :
  Repo_load_refs script_exec (fresh plain_world ∅) = Returns tt plain_loaded.
Proof. vm_compute. reflexivity. Qed.

Lemma load_refs_keys_are_names_witness :
  Ref_RemoteBranch master "origin" plain_loaded =
    Returns (None, Some ("refs/heads/master has no remote branch at origin" +:+ nl))
      plain_loaded /\
  Ref_HasRemoteRef script_exec master "origin" plain_loaded = Returns false plain_loaded.
Proof.
  apply (proj2 (load_refs_keys_are_names script_exec (fresh plain_world ∅) plain_loaded
                  eq_refl load_plain_state)
           plain_enumeration master "origin" eq_refl).
Defined.

(** C3 as stated fails when a branch is named like the path of a
    remote-tracking ref: all enumerated paths have the standard forms, yet
    the local ref [master] finds a remote branch at "origin". *)
Lemma RemoteBranch_finds_nested_branch :
  Repo_load_refs script_exec (fresh nested_world ∅) = Returns tt nested_loaded /\
  Forall (fun v => standard_path (Path v)) (enumerated nested_out) /\
  Ref_IsLocal master = true /\
  Ref_RemoteBranch master "origin" nested_loaded =
    Returns (Some nested_branch, None) nested_loaded /\
  Ref_HasRemoteRef script_exec master "origin" nested_loaded =
    Returns true nested_loaded.
Proof.
  split; [vm_compute; reflexivity|].
  split.
  { change (enumerated nested_out) with [master; nested_branch].
    constructor; [|constructor; [|constructor]].
    - right. exists "heads", "master". split; reflexivity.
    - right. exists "heads", "refs/remotes/origin/master". split; reflexivity. }
  repeat split; vm_compute; reflexivity.
Qed.

(** ** Tracking a remote *)

Lemma track_keys_differ (r : Ref) : track_remote_key r <> track_merge_key r.
Proof.
  unfold track_remote_key, track_merge_key. intros H.
  apply append_inj_r in H. discriminate.
Qed.

Section Tracking.

Context {W : Type}.

Lemma TrackRemote_noop (r : Ref) (remote : string) (st : State W) :
  Ref_IsLocal r = true -> tracks r remote st ->
  Ref_TrackRemote r remote st = Returns None st.
Proof.
  intros Hlocal [Hr Hm]. unfold Ref_TrackRemote, bind, Repo_Get.
  rewrite Hlocal. cbn [negb].
  fold (track_section r). fold (track_remote_key r). fold (track_merge_key r).
  rewrite Hr, Hm. cbn [fst snd andb].
  rewrite !String.eqb_refl. reflexivity.
Qed.

Lemma TrackRemote_writes (r : Ref) (remote : string) (st : State W) :
  Ref_IsLocal r = true -> ~ tracks r remote st ->
  Ref_TrackRemote r remote st = Returns None (retracked r remote st).
Proof.
  intros Hlocal Hnot. unfold Ref_TrackRemote, bind, Repo_Get, retracked.
  rewrite Hlocal. cbn [negb].
  fold (track_section r). fold (track_remote_key r). fold (track_merge_key r).
  destruct (config st !! track_remote_key r) as [vr|] eqn:Hr;
    destruct (config st !! track_merge_key r) as [vm|] eqn:Hm;
    cbn [fst snd andb orb].
  - destruct (String.eqb vr remote) eqn:Er; destruct (String.eqb vm (Path r)) eqn:Em;
      cbn [andb].
    + apply String.eqb_eq in Er, Em. subst. destruct Hnot. split; assumption.
    + rewrite bool_decide_eq_true_2 by (left; eauto).
      unfold Repo_maybeKillSection, Repo_Set, ret. simpl. rewrite <- !app_assoc. reflexivity.
    + rewrite bool_decide_eq_true_2 by (left; eauto).
      unfold Repo_maybeKillSection, Repo_Set, ret. simpl. rewrite <- !app_assoc. reflexivity.
    + rewrite bool_decide_eq_true_2 by (left; eauto).
      unfold Repo_maybeKillSection, Repo_Set, ret. simpl. rewrite <- !app_assoc. reflexivity.
  - rewrite bool_decide_eq_true_2 by (left; eauto).
    unfold Repo_maybeKillSection, Repo_Set, ret. simpl. rewrite <- !app_assoc. reflexivity.
  - rewrite bool_decide_eq_true_2 by (right; eauto).
    unfold Repo_maybeKillSection, Repo_Set, ret. simpl. rewrite <- !app_assoc. reflexivity.
  - rewrite bool_decide_eq_false_2
      by (intros [[? H] | [? H]]; discriminate).
    unfold Repo_Set, ret. simpl. rewrite <- !app_assoc. reflexivity.
Qed.

Lemma retracked_tracks (r : Ref) (remote : string) (st : State W) :
  tracks r remote (retracked r remote st).
Proof.
  unfold tracks, retracked. simpl. split.
  - rewrite lookup_insert_ne by (apply not_eq_sym, track_keys_differ).
    apply lookup_insert_eq.
  - apply lookup_insert_eq.
Qed.

(** C8: on a local ref, [TrackRemote] returns nil in the unchanged state
    (no write, no section deleted) when the config already names the
    remote and this ref's path.  Otherwise, when one of the two keys
    exists, it clears the section and then writes both keys, in this
    order.  A second call right after the first finds the config as the
    first one left it and changes nothing. *)
Theorem Ref_TrackRemote_idempotent (r : Ref) (remote : string) (st : State W) :
  Ref_IsLocal r = true ->
  (tracks r remote st -> Ref_TrackRemote r remote st = Returns None st) /\
  (~ tracks r remote st ->
   is_Some (config st !! track_remote_key r) \/
   is_Some (config st !! track_merge_key r) ->
   exists st1,
     Ref_TrackRemote r remote st = Returns None st1 /\
     trace st1 = trace st ++ [ConfigKill (track_section r);
                              ConfigSet (track_remote_key r) remote;
                              ConfigSet (track_merge_key r) (Path r)]) /\
  (exists st1,
     Ref_TrackRemote r remote st = Returns None st1 /\
     (~ tracks r remote st ->
      exists writes, trace st1 = trace st ++ writes ++
        [ConfigSet (track_remote_key r) remote; ConfigSet (track_merge_key r) (Path r)]) /\
     Ref_TrackRemote r remote st1 = Returns None st1).
Proof.
  intros Hlocal. split; [apply TrackRemote_noop, Hlocal|]. split.
  - intros Hnot Hsome. exists (retracked r remote st).
    split; [apply TrackRemote_writes; assumption|].
    unfold retracked. simpl. rewrite bool_decide_eq_true_2 by exact Hsome. reflexivity.
  - destruct (decide (config st !! track_remote_key r = Some remote /\
                      config st !! track_merge_key r = Some (Path r))) as [Hyes | Hno].
    + exists st. split; [apply TrackRemote_noop; assumption|].
      split; [intros Hnot; destruct (Hnot Hyes)|].
      apply TrackRemote_noop; assumption.
    + exists (retracked r remote st).
      split; [apply TrackRemote_writes; assumption|].
      split; [intros _; unfold retracked; simpl; eauto|].
      apply TrackRemote_noop; [assumption | apply retracked_tracks].
Qed.

End Tracking.

Lemma Ref_TrackRemote_idempotent_witness :
  Ref_TrackRemote master "origin" (fresh [] tracked_cfg) =
    Returns None (fresh [] tracked_cfg) /\
  (exists st1,
     Ref_TrackRemote master "origin" (fresh [] stale_cfg) = Returns None st1 /\
     trace st1 = [ConfigKill "branch.master";
                  ConfigSet "branch.master.remote" "origin";
                  ConfigSet "branch.master.merge" "refs/heads/master"]).
Proof.
  split.
  - apply (proj1 (Ref_TrackRemote_idempotent master "origin" (fresh [] tracked_cfg) eq_refl)).
    split; vm_compute; reflexivity.
  - apply (proj1 (proj2 (Ref_TrackRemote_idempotent master "origin" (fresh [] stale_cfg) eq_refl))).
    + intros [H _]. vm_compute in H. discriminate.
    + left. vm_compute. eauto.
Defined.

Example track_twice :
  Ref_TrackRemote master "origin" (fresh [] stale_cfg) =
    Returns None (retracked master "origin" (fresh [] stale_cfg)) /\
  config (retracked master "origin" (fresh [] stale_cfg)) = tracked_cfg /\
  Ref_TrackRemote master "origin" (retracked master "origin" (fresh [] stale_cfg)) =
    Returns None (retracked master "origin" (fresh [] stale_cfg)).
Proof. repeat split; vm_compute; reflexivity. Qed.

(** ** The status parser *)

Lemma ReadString_shorter (delim : ascii) (buf line rest : string) :
  ReadString buf delim = (line, rest, true) ->
  String.length rest < String.length buf.
Proof.
  revert line rest. induction buf as [|c buf IH]; intros line rest; simpl.
  - discriminate.
  - destruct (Ascii.eqb c delim).
    + intros [= _ <-]. lia.
    + destruct (ReadString buf delim) as [[l r] f].
      intros [= _ <- ->]. specialize (IH l r eq_refl). lia.
Qed.

(** The loop of [mapStatus] ends within one round per byte of output. *)
Lemma mapStatus_loop_finishes (n : nat) :
  forall out thisStat res,
    String.length out < n -> mapStatus_loop n out thisStat res <> Unfinished.
Proof.
  induction n as [|n IH]; intros out thisStat res Hlen; [lia|].
  simpl. destruct (ReadString out zero) as [[line out'] found] eqn:Hread.
  destruct found; simpl; [|discriminate].
  apply ReadString_shorter in Hread.
  destruct (statusRE_FindStringSubmatch line).
  - apply IH. lia.
  - destruct thisStat; [apply IH; lia | discriminate].
Qed.

Lemma parse_status_finishes (out : string) : parse_status out <> Unfinished.
Proof.
  unfold parse_status.
  pose proof (mapStatus_loop_finishes (S (String.length out)) out None []
                (Nat.lt_succ_diag_r _)) as H.
  destruct (mapStatus_loop _ _ _ _) as [[st|] res | msg |]; congruence.
Qed.

Example parse_rename :
  parse_status rename_out =
    Broke None [mkStatLine "R" " " ("new.txt" +:+ String zero EmptyString)
                  ("old.txt" +:+ String zero EmptyString)].
Proof. reflexivity. Qed.

Example parse_two_records :
  parse_status (" M a.go" +:+ String zero ("?? b.go" +:+ String zero "tail")) =
    Broke None [mkStatLine " " "M" ("a.go" +:+ String zero EmptyString)
                  ("a.go" +:+ String zero EmptyString);
                mkStatLine "?" "?" ("b.go" +:+ String zero EmptyString)
                  ("b.go" +:+ String zero EmptyString)].
Proof. reflexivity. Qed.

Example parse_stray_continuation :
  parse_status ("old.txt" +:+ String zero EmptyString) = Panicked "Cannot happen!".
Proof. reflexivity. Qed.

Section Status.

Context {W : Type}.
Variable exec : W -> Cmd -> CmdResult * W.


End Status.



(** * Further properties of the code *)

(** ** Classification and names of refs *)

Lemma HasPrefix_inv (s p : string) :
  HasPrefix s p = true -> exists t, s = p +:+ t.
Proof.
  revert s. induction p as [|c p IH]; intros s H; simpl in *.
  - exists s. reflexivity.
  - destruct s as [|d s]; [discriminate|].
    apply andb_prop in H as [Hd Hs]. apply Ascii.eqb_eq in Hd. subst d.
    destruct (IH s Hs) as [t ->]. exists t. reflexivity.
Qed.

Lemma cut_join (sep : ascii) (s a b : string) :
  cut sep s = Some (a, b) -> s = a +:+ String sep b.
Proof.
  revert a b. induction s as [|c s IH]; intros a b; simpl; [discriminate|].
  destruct (Ascii.eqb c sep) eqn:E.
  - apply Ascii.eqb_eq in E. subst c. intros [= <- <-]. reflexivity.
  - destruct (cut sep s) as [[a' b']|]; [|discriminate].
    intros [= <- <-]. simpl. rewrite (IH a' b' eq_refl). reflexivity.
Qed.

Lemma append_assoc (a b c : string) : (a +:+ b) +:+ c = a +:+ (b +:+ c).
Proof. induction a as [|x a IH]; simpl; [reflexivity | rewrite IH; reflexivity]. Qed.

Lemma classes_at_most_one (r : Ref) : classifications r <= 1.
Proof.
  unfold classifications, Ref_IsLocal, Ref_IsRemote, Ref_IsTag, Ref_IsHead.
  destruct (HasPrefix (Path r) "refs/heads/") eqn:Hl;
    destruct (HasPrefix (Path r) "refs/remotes/") eqn:Hr;
    destruct (HasPrefix (Path r) "refs/tags/") eqn:Ht;
    destruct (String.eqb (Path r) "HEAD") eqn:Hh;
    simpl; try lia; exfalso;
    repeat match goal with
           | H : HasPrefix _ _ = true |- _ => apply HasPrefix_inv in H as [? H]
           | H : String.eqb _ _ = true |- _ => apply String.eqb_eq in H
           end;
    simpl in *; congruence.
Qed.

Lemma tag_or_local_only (r : Ref) :
  Ref_IsTag r = true \/ Ref_IsLocal r = true ->
  Ref_IsRemote r = false /\ Ref_IsHead r = false /\
  (Ref_IsTag r = false -> Ref_IsLocal r = true).
Proof.
  pose proof (classes_at_most_one r) as H. unfold classifications in H.
  intros [Ht | Hl].
  - rewrite Ht in H. destruct (Ref_IsRemote r), (Ref_IsHead r), (Ref_IsLocal r);
      simpl in H; try lia; repeat split; congruence.
  - rewrite Hl in H. destruct (Ref_IsRemote r), (Ref_IsHead r), (Ref_IsTag r);
      simpl in H; try lia; repeat split; congruence.
Qed.

(** A ref has at most one of the classifications local, remote, tag and
    HEAD. *)
Theorem Ref_classes_exclusive (r : Ref) : classifications r <= 1.
Proof. apply classes_at_most_one. Qed.



(** [Name()] always has a last piece to return, and that piece is a
    suffix of the path. *)
Theorem Ref_Name_suffix (r : Ref) :
  SplitN (Path r) "/" 3 <> [] /\ exists pre, Path r = pre +:+ Ref_Name r.
Proof.
  unfold Ref_Name. simpl.
  destruct (cut "/" (Path r)) as [[a b]|] eqn:E1.
  - destruct (cut "/" b) as [[a' b']|] eqn:E2; simpl.
    + split; [discriminate|]. exists (a +:+ "/" +:+ a' +:+ "/").
      rewrite (cut_join _ _ _ _ E1), (cut_join _ _ _ _ E2).
      rewrite !append_assoc. reflexivity.
    + split; [discriminate|]. exists (a +:+ "/").
      rewrite (cut_join _ _ _ _ E1). rewrite append_assoc. reflexivity.
  - split; [discriminate|]. exists EmptyString. reflexivity.
Qed.

(** For a remote-tracking ref the index [k[2]] of [Remote()] is in range;
    with a path "refs/remotes/<remote>/<branch>" it returns [<remote>],
    and [Name()] is that remote, a slash and the branch. *)
Theorem Ref_Remote_of_path (r : Ref) :
  Ref_IsRemote r = true ->
  2 < List.length (SplitN (Path r) "/" 4) /\
  forall remote branch,
    slash_free remote = true ->
    Path r = "refs/remotes/" +:+ remote +:+ "/" +:+ branch ->
    Ref_Remote r = (remote, None) /\
    Ref_Name r = (Ref_Remote r).1 +:+ "/" +:+ branch.
Proof.
  intros Hremote. split.
  - apply HasPrefix_inv in Hremote as [t Ht]. rewrite Ht. simpl.
    destruct (cut "/" t) as [[a b]|]; simpl; lia.
  - intros remote branch Hfree HP.
    assert (HR : Ref_Remote r = (remote, None)).
    { unfold Ref_Remote. rewrite Hremote. simpl. rewrite HP. simpl.
      rewrite (cut_slash_free remote branch Hfree). reflexivity. }
    split; [exact HR|]. rewrite HR. simpl.
    apply (Ref_Name_two_slashes r "refs" "remotes"); [reflexivity | reflexivity | exact HP].
Qed.

Lemma Ref_Remote_of_path_witness :
  2 < List.length (SplitN (Path origin_master) "/" 4) /\
  Ref_Remote origin_master = ("origin", None) /\
  Ref_Name origin_master = (Ref_Remote origin_master).1 +:+ "/" +:+ "master".
Proof.
  split.
  - apply (proj1 (Ref_Remote_of_path origin_master eq_refl)).
  - apply (proj2 (Ref_Remote_of_path origin_master eq_refl) "origin" "master");
      reflexivity.
Defined.

(** ** The ref cache *)




Section Cache.

Context {W : Type}.
Variable exec : W -> Cmd -> CmdResult * W.



(** A load that returns makes the next load a no-op: it returns in the
    same state, so a second enumeration is never started. *)
Theorem Repo_load_refs_idempotent (st st' : State W) :
  Repo_load_refs exec st = Returns tt st' ->
  Repo_load_refs exec st' = Returns tt st'.
Proof.
  intros Hload. destruct (proj1 (load_refs_returns exec _ _ Hload)) as [m Hm].
  exact (load_refs_loaded exec st' m Hm).
Qed.



End Cache.


Lemma Repo_load_refs_idempotent_witness :
  Repo_load_refs script_exec plain_loaded = Returns tt plain_loaded.
Proof.
  exact (Repo_load_refs_idempotent script_exec (fresh plain_world ∅) plain_loaded
           load_plain_state).
Defined.



(** ** Deleting, creating, comparing and checking out refs *)

Section Mutation.

Context {W : Type}.
Variable exec : W -> Cmd -> CmdResult * W.

Lemma Run_after (c : Cmd) (st : State W) :
  Run exec c st = Returns (exec (world st) c).1 (after_run exec c st).
Proof. unfold Run, after_run. destruct (exec (world st) c). reflexivity. Qed.

(** [Delete()] on a tag or a branch runs one command, [tag -d] or
    [branch -d] with the short name, and returns its error.  When the
    command succeeds the name leaves the loaded cache, so [HasRef] no
    longer finds it and needs no new enumeration; when it fails the cache
    stays as it was. *)
Theorem Ref_Delete_runs (r : Ref) (st : State W) (m : RefMap) :
  Ref_IsTag r = true \/ Ref_IsLocal r = true ->
  refs (repo st) = Some m ->
  let c := Repo_Git (repo st) (if Ref_IsTag r then "tag" else "branch")
             ["-d"; Ref_Name r] in
  let res := (exec (world st) c).1 in
  exists st',
    Ref_Delete exec r st = Returns (run_err res) st' /\
    trace st' = trace st ++ [Exec c] /\
    (run_err res = None ->
     refs (repo st') = Some (delete (Ref_Name r) m) /\
     Repo_HasRef exec (Ref_Name r) st' = Returns false st') /\
    (run_err res <> None -> refs (repo st') = Some m).
Proof.
  intros Hclass Hm c res.
  destruct (tag_or_local_only r Hclass) as (Hremote & Hhead & Hlocal).
  assert (Hrun : Ref_Delete exec r st =
            match run_err res with
            | None =>
                Returns None
                  (mkState (mkRepo (GitDir (repo st)) (WorkDir (repo st))
                              (Some (delete (Ref_Name r) m)) (cfg (repo st)))
                     (exec (world st) c).2 (config st) (trace st ++ [Exec c]))
            | Some e => Returns (Some e) (after_run exec c st)
            end).
  { unfold Ref_Delete. rewrite Hremote, Hhead. subst res c.
    destruct (Ref_IsTag r); [|rewrite (Hlocal eq_refl)];
      unfold bind, get_repo; rewrite Run_after;
      destruct (run_err _); try reflexivity;
      unfold set_refs, ret, after_run; simpl; rewrite Hm; reflexivity. }
  rewrite Hrun. destruct (run_err res) as [e|] eqn:Herr.
  - eexists. split; [reflexivity|]. split; [reflexivity|].
    split; [discriminate|]. intros _. simpl. exact Hm.
  - eexists. split; [reflexivity|]. split; [reflexivity|].
    split; [|congruence]. intros _. split; [reflexivity|].
    unfold Repo_HasRef, bind, Repo_load_refs, get_repo, ret, refs_lookup. simpl.
    rewrite lookup_delete_eq. reflexivity.
Qed.

(** When [x.SHA] and [other.SHA] differ, [Contains] runs one [rev-list]
    of other's commits without x's: an error of the tool comes back with
    false, and otherwise the answer is true exactly when the command
    printed nothing. *)
Theorem Ref_Contains_queries (r other : Ref) (st : State W) :
  SHA r <> SHA other ->
  let c := Repo_Git (repo st) "rev-list" [SHA other; "^" +:+ SHA r] in
  let res := (exec (world st) c).1 in
  exists answer,
    Ref_Contains exec r other st = Returns answer (after_run exec c st) /\
    (forall e, run_err res = Some e -> answer = (false, Some e)) /\
    (run_err res = None -> stdout res = EmptyString -> answer = (true, None)) /\
    (run_err res = None -> stdout res <> EmptyString -> answer = (false, None)).
Proof.
  intros Hne c res. unfold Ref_Contains.
  apply String.eqb_neq in Hne. rewrite Hne.
  unfold bind, get_repo. fold c. rewrite Run_after. fold res.
  destruct (run_err res) as [e|]; eexists; (split; [reflexivity|]).
  - repeat split; congruence.
  - split; [discriminate|]. split.
    + intros _ ->. reflexivity.
    + intros _ Hout. destruct (stdout res); [congruence | reflexivity].
Qed.

(** [Ref.Checkout] is [Repo.Checkout] of the short name for a branch or a
    tag and of the SHA for a remote-tracking ref or HEAD; either way one
    [checkout -q] runs, its error is returned and the ref cache is kept. *)
Theorem Ref_Checkout_target (r : Ref) (st : State W) :
  (Ref_IsLocal r = true \/ Ref_IsTag r = true ->
   Ref_Checkout exec r st = Repo_Checkout exec (Ref_Name r) st) /\
  (Ref_IsRemote r = true \/ Ref_IsHead r = true ->
   Ref_Checkout exec r st = Repo_Checkout exec (SHA r) st) /\
  (forall ref,
     let c := Repo_Git (repo st) "checkout" ["-q"; ref] in
     Repo_Checkout exec ref st =
       Returns (run_err (exec (world st) c).1) (after_run exec c st)).
Proof.
  pose proof (classes_at_most_one r) as Hone. unfold classifications in Hone.
  repeat split.
  - intros H. unfold Ref_Checkout, Repo_Checkout.
    replace (Ref_IsLocal r || Ref_IsTag r) with true; [reflexivity|].
    destruct H as [-> | ->]; [reflexivity | apply eq_sym, orb_true_r].
  - intros H. unfold Ref_Checkout, Repo_Checkout.
    replace (Ref_IsLocal r || Ref_IsTag r) with false; [reflexivity|].
    destruct H as [H | H]; rewrite H in Hone;
      destruct (Ref_IsLocal r), (Ref_IsTag r), (Ref_IsRemote r), (Ref_IsHead r);
      simpl in Hone; try lia; reflexivity.
  - intros ref c. unfold Repo_Checkout, bind, get_repo. fold c.
    rewrite Run_after. reflexivity.
Qed.

(** Past the two name checks [make_ref] still starts nothing when the
    kind is neither "branch" nor "tag" or when the base is neither a ref
    nor a string: each case has an error of its own. *)
Theorem Repo_make_ref_rejects (reftype name : string) (base : Base) (st st' : State W) :
  Repo_load_refs exec st = Returns tt st' ->
  name <> "HEAD" -> refs_lookup (repo st') name = None ->
  (reftype <> "branch" -> reftype <> "tag" ->
   Repo_make_ref exec reftype name base st = Returns (None, Some "Unknown ref type!") st') /\
  (reftype = "branch" \/ reftype = "tag" -> base = BaseOther ->
   Repo_make_ref exec reftype name base st =
     Returns (None, Some "Unknown type for base!") st').
Proof.
  intros Hload Hname Hfree.
  apply String.eqb_neq in Hname.
  assert (Hdec : bool_decide (is_Some (refs_lookup (repo st') name)) = false).
  { apply bool_decide_eq_false_2. rewrite Hfree. intros [? ?]. discriminate. }
  split.
  - intros Hb Ht. apply String.eqb_neq in Hb, Ht.
    unfold Repo_make_ref, bind. rewrite Hload. unfold get_repo.
    rewrite Hname, Hdec, Hb, Ht. reflexivity.
  - intros Hkind ->. unfold Repo_make_ref, bind. rewrite Hload. unfold get_repo.
    rewrite Hname, Hdec.
    destruct Hkind as [-> | ->]; reflexivity.
Qed.


End Mutation.

Lemma Ref_Delete_runs_witness :
  exists st',
    Ref_Delete script_exec master (with_refs plain_refs delete_world) = Returns None st' /\
    trace st' = [Exec (mkCmd "/srv/demo" ["branch"; "-d"; "master"])] /\
    refs (repo st') = Some (delete "master" plain_refs) /\
    Repo_HasRef script_exec "master" st' = Returns false st'.
Proof.
  destruct (Ref_Delete_runs script_exec master (with_refs plain_refs delete_world)
              plain_refs (or_intror eq_refl) eq_refl) as (st' & Hrun & Htrace & Hok & _).
  exists st'. destruct (Hok eq_refl) as [Hrefs Hhas].
  repeat split; assumption.
Defined.

Lemma Ref_Contains_queries_witness :
  Ref_Contains script_exec master tag_v1 (with_refs plain_refs contains_world) =
    Returns (true, None)
      (after_run script_exec (mkCmd "/srv/demo" ["rev-list"; "9c02"; "^5d1f"])
         (with_refs plain_refs contains_world)).
Proof.
  destruct (Ref_Contains_queries script_exec master tag_v1
              (with_refs plain_refs contains_world))
    as (answer & Hrun & _ & Hyes & _); [discriminate|].
  rewrite <- (Hyes eq_refl eq_refl). exact Hrun.
Defined.

Lemma Ref_Checkout_target_witness :
  Ref_Checkout script_exec master (with_refs plain_refs []) =
    Repo_Checkout script_exec "master" (with_refs plain_refs []) /\
  Ref_Checkout script_exec origin_master (with_refs plain_refs []) =
    Repo_Checkout script_exec "5d1f" (with_refs plain_refs []).
Proof.
  split.
  - apply (proj1 (Ref_Checkout_target script_exec master (with_refs plain_refs []))).
    left. reflexivity.
  - apply (proj1 (proj2 (Ref_Checkout_target script_exec origin_master
                           (with_refs plain_refs [])))).
    left. reflexivity.
Defined.

Lemma Repo_make_ref_rejects_witness :
  Repo_make_ref script_exec "note" "v2" (BaseString "master") (with_refs plain_refs []) =
    Returns (None, Some "Unknown ref type!") (with_refs plain_refs []) /\
  Repo_make_ref script_exec "tag" "v2" BaseOther (with_refs plain_refs []) =
    Returns (None, Some "Unknown type for base!") (with_refs plain_refs []).
Proof.
  split.
  - apply (proj1 (Repo_make_ref_rejects script_exec "note" "v2" (BaseString "master")
                    (with_refs plain_refs []) (with_refs plain_refs [])
                    eq_refl ltac:(discriminate) eq_refl));
      discriminate.
  - apply (proj2 (Repo_make_ref_rejects script_exec "tag" "v2" BaseOther
                    (with_refs plain_refs []) (with_refs plain_refs [])
                    eq_refl ltac:(discriminate) eq_refl));
      [right; reflexivity | reflexivity].
Defined.



(** ** Reading the tracked remote *)

Section TracksReads.

Context {W : Type}.

(** [Tracks()] answers from the config alone: a ref that is not a branch
    gets an error naming its path, a branch without a "remote" key gets
    the error whose text starts with the unfilled verb, and a branch with
    the key gets its value. *)
Theorem Ref_Tracks_reads_config (r : Ref) (st : State W) :
  (Ref_IsLocal r = false ->
   Ref_Tracks r st =
     Returns (EmptyString,
              Some (Path r +:+ " is not a branch, it does not track anything.")) st) /\
  (Ref_IsLocal r = true -> config st !! track_remote_key r = None ->
   Ref_Tracks r st =
     Returns (EmptyString, Some "%!s(MISSING) does not track a remote") st) /\
  (Ref_IsLocal r = true ->
   forall remote, config st !! track_remote_key r = Some remote ->
     Ref_Tracks r st = Returns (remote, None) st).
Proof.
  repeat split.
  - intros H. unfold Ref_Tracks. rewrite H. reflexivity.
  - intros H Hnone. unfold Ref_Tracks, bind, Repo_Get. rewrite H. cbn [negb].
    change ("branch." +:+ Ref_Name r +:+ ".remote") with (track_remote_key r). rewrite Hnone. reflexivity.
  - intros H remote Hsome. unfold Ref_Tracks, bind, Repo_Get. rewrite H. cbn [negb].
    change ("branch." +:+ Ref_Name r +:+ ".remote") with (track_remote_key r). rewrite Hsome. reflexivity.
Qed.

(** After [TrackRemote(remote)] has returned nil on a branch, [Tracks()]
    returns that remote. *)
Theorem Ref_Tracks_after_TrackRemote (r : Ref) (remote : string) (st st1 : State W) :
  Ref_IsLocal r = true ->
  Ref_TrackRemote r remote st = Returns None st1 ->
  Ref_Tracks r st1 = Returns (remote, None) st1.
Proof.
  intros Hlocal Hrun.
  assert (Htracks : tracks r remote st1).
  { destruct (decide (tracks r remote st)) as [Hyes | Hno].
    - rewrite (TrackRemote_noop r remote st Hlocal Hyes) in Hrun.
      injection Hrun as <-. exact Hyes.
    - rewrite (TrackRemote_writes r remote st Hlocal Hno) in Hrun.
      injection Hrun as <-. apply retracked_tracks. }
  destruct Htracks as [Hremote _].
  unfold Ref_Tracks, bind, Repo_Get. rewrite Hlocal. cbn [negb].
  change ("branch." +:+ Ref_Name r +:+ ".remote") with (track_remote_key r). rewrite Hremote. reflexivity.
Qed.

End TracksReads.

Lemma Ref_Tracks_reads_config_witness :
  Ref_Tracks origin_master (fresh [] stale_cfg) =
    Returns (EmptyString,
             Some "refs/remotes/origin/master is not a branch, it does not track anything.")
      (fresh [] stale_cfg) /\
  Ref_Tracks master (fresh [] ∅) =
    Returns (EmptyString, Some "%!s(MISSING) does not track a remote") (fresh [] ∅) /\
  Ref_Tracks master (fresh [] stale_cfg) = Returns ("upstream", None) (fresh [] stale_cfg).
Proof.
  split; [|split].
  - apply (proj1 (Ref_Tracks_reads_config origin_master (fresh [] stale_cfg))).
    reflexivity.
  - apply (proj1 (proj2 (Ref_Tracks_reads_config master (fresh [] ∅))));
      reflexivity.
  - apply (proj2 (proj2 (Ref_Tracks_reads_config master (fresh [] stale_cfg))));
      [reflexivity | vm_compute; reflexivity].
Defined.

Lemma Ref_Tracks_after_TrackRemote_witness :
  Ref_Tracks master (retracked master "origin" (fresh [] stale_cfg)) =
    Returns ("origin", None) (retracked master "origin" (fresh [] stale_cfg)).
Proof.
  apply (Ref_Tracks_after_TrackRemote master "origin" (fresh [] stale_cfg)).
  - reflexivity.
  - vm_compute. reflexivity.
Defined.

(** ** Where commands run and what they leave alone *)

Section InPlace.

Context {W : Type}.
Variable exec : W -> Cmd -> CmdResult * W.
Variables g w : string.










End InPlace.


(** ** The status parser on whole reports *)

Lemma length_append (a b : string) :
  String.length (a +:+ b) = String.length a + String.length b.
Proof. induction a as [|c a IH]; simpl; [reflexivity | rewrite IH; reflexivity]. Qed.

Lemma ReadString_terminated (l rest : string) :
  nul_free l = true ->
  ReadString (l +:+ String zero rest) zero = (terminated l, rest, true).
Proof.
  induction l as [|c l IH]; simpl; intros H; [reflexivity|].
  apply andb_prop in H as [Hc Hl]. apply negb_true_iff in Hc.
  rewrite Hc, (IH Hl). reflexivity.
Qed.

Lemma ReadString_unterminated (t : string) :
  nul_free t = true -> (ReadString t zero).2 = false.
Proof.
  induction t as [|c t IH]; simpl; intros H; [reflexivity|].
  apply andb_prop in H as [Hc Ht]. apply negb_true_iff in Hc. rewrite Hc.
  specialize (IH Ht). destruct (ReadString t zero) as [[l r] f]. exact IH.
Qed.

Lemma dots_terminated (p : string) : dots p = true -> dots (terminated p) = true.
Proof.
  induction p as [|c p IH]; simpl; intros H; [reflexivity|].
  apply andb_prop in H as [Hc Hp]. rewrite Hc. exact (IH Hp).
Qed.

Lemma status_code_not_nul (c : ascii) : status_code c = true -> Ascii.eqb c zero = false.
Proof.
  intros H. destruct (Ascii.eqb c zero) eqn:E; [|reflexivity].
  apply Ascii.eqb_eq in E. subst c. discriminate.
Qed.

Lemma mapStatus_loop_step (n : nat) (out : string)
    (thisStat : option StatLine) (res : list StatLine) :
  mapStatus_loop (S n) out thisStat res =
    let '(line, out', found) := ReadString out zero in
    if negb found then Broke thisStat res
    else
      match statusRE_FindStringSubmatch line with
      | Some parts =>
          mapStatus_loop n out'
            (Some (mkStatLine (nth 1 parts EmptyString) (nth 2 parts EmptyString)
                     (nth 3 parts EmptyString) (nth 3 parts EmptyString)))
            (flush thisStat res)
      | None =>
          match thisStat with
          | Some st =>
              mapStatus_loop n out'
                (Some (mkStatLine (indexStat st) (workStat st) (oldPath st) line)) res
          | None => Panicked "Cannot happen!"
          end
      end.
Proof. reflexivity. Qed.

(** The loop on the bytes of parsable entries followed by an unterminated
    tail: every entry becomes its StatLine, in order. *)
Lemma mapStatus_loop_records (tail : string) :
  nul_free tail = true ->
  forall recs n thisStat res,
    Forall parsable recs ->
    String.length (encode_records recs +:+ tail) < n ->
    exists thisStat' res',
      mapStatus_loop n (encode_records recs +:+ tail) thisStat res = Broke thisStat' res' /\
      flush thisStat' res' = flush thisStat res ++ map record_line recs.
Proof.
  intros Htail. induction recs as [|e recs IH]; intros n thisStat res Hall Hlen.
  - destruct n as [|n]; [lia|]. simpl encode_records.
    change (EmptyString +:+ tail) with tail.
    rewrite mapStatus_loop_step.
    pose proof (ReadString_unterminated tail Htail) as Hread.
    destruct (ReadString tail zero) as [[l r] f]. simpl in Hread. subst f.
    exists thisStat, res. simpl. rewrite app_nil_r. split; reflexivity.
  - apply Forall_cons in Hall as [(Hx & Hy & Hnul & Hdots & Hsecond) Hall].
    destruct e as [x y path second]. simpl in Hx, Hy, Hnul, Hdots, Hsecond.
    set (rest := encode_records recs +:+ tail) in *.
    set (head := String x (String y (String " " path))).
    assert (Hhead : nul_free head = true).
    { unfold head. simpl. rewrite (status_code_not_nul x Hx), (status_code_not_nul y Hy).
      exact Hnul. }
    assert (Hmatch : statusRE_FindStringSubmatch (terminated head) =
              Some [terminated head; String x EmptyString; String y EmptyString;
                    terminated path]).
    { unfold head, terminated. simpl.
      rewrite Hx, Hy. simpl. fold (terminated path).
      rewrite (dots_terminated path Hdots). reflexivity. }
    destruct second as [q|].
    + destruct Hsecond as [Hq Hnomatch].
      assert (Hbuf : encode_records (mkStatusRecord x y path (Some q) :: recs) +:+ tail =
                head +:+ String zero (q +:+ String zero rest)).
      { unfold rest, head. simpl. unfold encode_record, terminated. simpl.
        repeat (rewrite append_assoc; simpl). reflexivity. }
      rewrite Hbuf in *. clearbody rest head.
      rewrite !length_append in Hlen. simpl in Hlen.
      rewrite length_append in Hlen. simpl in Hlen.
      destruct n as [|[|n]]; [lia | lia |].
      rewrite mapStatus_loop_step, (ReadString_terminated head _ Hhead).
      cbn [negb]. rewrite Hmatch. cbn [nth].
      rewrite mapStatus_loop_step, (ReadString_terminated q rest Hq).
      cbn [negb]. rewrite Hnomatch.
      destruct (IH n
                  (Some (mkStatLine (String x EmptyString) (String y EmptyString)
                           (terminated path) (terminated q)))
                  (flush thisStat res) Hall) as (t' & res' & Hrun & Hflush).
      { lia. }
      exists t', res'. split; [exact Hrun|].
      rewrite Hflush. simpl. rewrite <- app_assoc. reflexivity.
    + assert (Hbuf : encode_records (mkStatusRecord x y path None :: recs) +:+ tail =
                head +:+ String zero rest).
      { unfold rest, head. simpl. unfold encode_record, terminated. simpl.
        repeat (rewrite append_assoc; simpl). reflexivity. }
      rewrite Hbuf in *. clearbody rest head.
      rewrite !length_append in Hlen. simpl in Hlen.
      destruct n as [|n]; [lia|].
      rewrite mapStatus_loop_step, (ReadString_terminated head _ Hhead).
      cbn [negb]. rewrite Hmatch. cbn [nth].
      destruct (IH n
                  (Some (mkStatLine (String x EmptyString) (String y EmptyString)
                           (terminated path) (terminated path)))
                  (flush thisStat res) Hall) as (t' & res' & Hrun & Hflush).
      { lia. }
      exists t', res'. split; [exact Hrun|].
      rewrite Hflush. simpl. rewrite <- app_assoc. reflexivity.
Qed.

Lemma parse_status_records (recs : list StatusRecord) (tail : string) :
  Forall parsable recs -> nul_free tail = true ->
  parse_status (encode_records recs +:+ tail) = Broke None (map record_line recs).
Proof.
  intros Hall Htail. unfold parse_status.
  destruct (mapStatus_loop_records tail Htail recs
              (S (String.length (encode_records recs +:+ tail))) None [] Hall
              (Nat.lt_succ_diag_r _)) as (t' & res' & Hrun & Hflush).
  rewrite Hrun. simpl in Hflush. destruct t'; simpl in Hflush; rewrite Hflush; reflexivity.
Qed.

Lemma status_code_labelled (c : ascii) :
  status_code c = true -> statMap (String c EmptyString) <> EmptyString.
Proof.
  unfold status_code. simpl. intros H.
  repeat match type of H with
         | (Ascii.eqb c ?d || _)%bool = true =>
             let E := fresh "E" in
             destruct (Ascii.eqb c d) eqn:E;
             [apply Ascii.eqb_eq in E; subst c; vm_compute; discriminate
             | simpl in H; clear E]
         end.
  discriminate.
Qed.

Lemma statusRE_groups (line : string) (parts : list string) :
  statusRE_FindStringSubmatch line = Some parts ->
  exists x y path,
    parts = [line; String x EmptyString; String y EmptyString; path] /\
    line = String x (String y (String " " path)) /\
    status_code x = true /\ status_code y = true.
Proof.
  unfold statusRE_FindStringSubmatch.
  destruct line as [|x [|y [|sp path]]]; try discriminate.
  destruct (status_code x) eqn:Hx; [|discriminate].
  destruct (status_code y) eqn:Hy; [|discriminate].
  destruct (Ascii.eqb sp " ") eqn:Hsp; [|discriminate].
  destruct (dots path); [|discriminate].
  apply Ascii.eqb_eq in Hsp. subst sp. simpl. intros [= <-].
  exists x, y, path. repeat split; assumption.
Qed.

Lemma mapStatus_loop_labelled (n : nat) :
  forall out thisStat res thisStat' res',
    Forall labelled (flush thisStat res) ->
    mapStatus_loop n out thisStat res = Broke thisStat' res' ->
    Forall labelled (flush thisStat' res').
Proof.
  induction n as [|n IH]; intros out thisStat res thisStat' res' Hinv; [discriminate|].
  rewrite mapStatus_loop_step.
  destruct (ReadString out zero) as [[line out'] found].
  destruct found; cbn [negb]; [|intros [= <- <-]; exact Hinv].
  destruct (statusRE_FindStringSubmatch line) as [parts|] eqn:Hmatch.
  - destruct (statusRE_groups line parts Hmatch) as (x & y & path & -> & _ & Hx & Hy).
    cbn [nth]. apply IH. simpl. apply Forall_app. split; [exact Hinv|].
    constructor; [|constructor].
    split; simpl; apply status_code_labelled; assumption.
  - destruct thisStat as [st|]; [|discriminate].
    apply IH. simpl in *. apply Forall_app in Hinv as [Hres Hst].
    apply Forall_app. split; [exact Hres|].
    apply Forall_cons in Hst as [Hst _]. constructor; [exact Hst | constructor].
Qed.

Section StatusReports.

Context {W : Type}.
Variable exec : W -> Cmd -> CmdResult * W.

(** A status report is read back entry by entry and in order: each
    parsable entry gives one StatLine with its two status characters, with
    its path (NUL included) as oldPath, and with the second path of a
    rename, or else the same path, as newPath; bytes after the last NUL
    are dropped.  [IsClean] is true exactly when there is no entry. *)
Theorem mapStatus_reads_report (st : State W) (recs : list StatusRecord) (tail : string) :
  let c := Repo_Git (repo st) "status" ["--porcelain"; "-z"] in
  let res := (exec (world st) c).1 in
  run_err res = None ->
  stdout res = encode_records recs +:+ tail ->
  Forall parsable recs -> nul_free tail = true ->
  Repo_mapStatus exec st = Returns (map record_line recs) (after_run exec c st) /\
  Repo_IsClean exec st =
    Returns (bool_decide (recs = []), map record_line recs) (after_run exec c st).
Proof.
  intros c res Herr Hout Hall Htail.
  assert (Hmap : Repo_mapStatus exec st =
            Returns (map record_line recs) (after_run exec c st)).
  { unfold Repo_mapStatus, bind, get_repo. fold c. rewrite Run_after. fold res.
    rewrite Herr, Hout, (parse_status_records recs tail Hall Htail). reflexivity. }
  split; [exact Hmap|].
  unfold Repo_IsClean, bind. rewrite Hmap. unfold ret.
  destruct recs; reflexivity.
Qed.

(** [mapStatus] panics when the status query fails, and also when the
    first NUL terminated record of its output is not a status line. *)
Theorem mapStatus_panics (st : State W) :
  let res := (exec (world st) (Repo_Git (repo st) "status" ["--porcelain"; "-z"])).1 in
  run_err res <> None \/
  (exists first rest,
     stdout res = first +:+ String zero rest /\ nul_free first = true /\
     statusRE_FindStringSubmatch (terminated first) = None) ->
  exists msg, Repo_mapStatus exec st = Panics msg.
Proof.
  intros res Hbad. unfold Repo_mapStatus, bind, get_repo. rewrite Run_after. fold res.
  destruct (run_err res) as [e|]; [eexists; reflexivity|].
  destruct Hbad as [Herr | (first & rest & Hout & Hfirst & Hnomatch)]; [congruence|].
  rewrite Hout. unfold parse_status. rewrite mapStatus_loop_step.
  rewrite (ReadString_terminated first rest Hfirst). cbn [negb].
  rewrite Hnomatch. eexists. reflexivity.
Qed.

(** Whatever the status query prints, both status codes of every StatLine
    that [mapStatus] returns have a label in [statMap]. *)
Theorem mapStatus_lines_labelled (st st' : State W) (lines : list StatLine) :
  Repo_mapStatus exec st = Returns lines st' -> Forall labelled lines.
Proof.
  unfold Repo_mapStatus, bind, get_repo. rewrite Run_after.
  destruct (run_err _); [discriminate|].
  unfold parse_status.
  destruct (mapStatus_loop _ _ None []) as [t res | msg |] eqn:Hloop;
    [|discriminate|discriminate].
  pose proof (mapStatus_loop_labelled _ _ None [] t res (Forall_nil_2 _) Hloop) as Hinv.
  destruct t as [s|]; intros [= <- _]; exact Hinv.
Qed.

End StatusReports.

Lemma report_parsable : Forall parsable report.
Proof.
  unfold report. repeat (constructor; [repeat split|]). constructor.
Qed.

Lemma mapStatus_reads_report_witness :
  Repo_mapStatus script_exec (fresh report_world ∅) =
    Returns [mkStatLine "R" " " (terminated "new.txt") (terminated "old.txt");
             mkStatLine " " "M" (terminated "a.go") (terminated "a.go");
             mkStatLine "?" "?" (terminated "b c.txt") (terminated "b c.txt")]
      (after_run script_exec status_cmd (fresh report_world ∅)) /\
  Repo_IsClean script_exec (fresh report_world ∅) =
    Returns (false, map record_line report)
      (after_run script_exec status_cmd (fresh report_world ∅)).
Proof.
  exact (mapStatus_reads_report script_exec (fresh report_world ∅) report "cut"
           eq_refl eq_refl report_parsable eq_refl).
Defined.

Lemma mapStatus_panics_witness :
  exists msg, Repo_mapStatus script_exec (fresh newline_world ∅) = Panics msg.
Proof.
  apply (mapStatus_panics script_exec (fresh newline_world ∅)).
  right. exists (" M a" +:+ nl +:+ "b"), EmptyString.
  split; [|split]; reflexivity.
Defined.

Lemma mapStatus_lines_labelled_witness :
  Forall labelled [mkStatLine "R" " " (terminated "new.txt") (terminated "old.txt")].
Proof.
  apply (mapStatus_lines_labelled script_exec (fresh status_world ∅) status_done).
  vm_compute. reflexivity.
Defined.

(** ** Dropping the cache *)

Section Reload.

Context {W : Type}.
Variable exec : W -> Cmd -> CmdResult * W.


End Reload.

